(** * The security service (services/security/app.py)

    A shallow embedding of the identity and secure-channel service: the user
    table, bearer tokens, the symmetric-encryption envelope, the per-user
    protocol registry, the audit log and the authentication decorator.

    Conventions of the embedding.
    - The module-level dictionaries [users_db] and [custom_protocols] are
      finite maps keyed by text, [security_logs] is a list; the three travel
      together in a [State] that every handler receives and returns.
    - What a handler reads from the outside world besides the request (the
      clock, the salt drawn by bcrypt, the IV drawn by Fernet) is an [Env].
      One request is served at one instant of the clock, in whole seconds,
      the resolution of the [exp] claim of a token.
    - [request.json] is an object whose text fields are strings; a field that
      is absent reads as the default the source gives to [data.get].  Text is
      a [string] of 8-bit characters, the code points 0 to 255.
    - A handler's [try ... except Exception] answers 500 with [str(e)]; the
      calls that can raise here are [bcrypt.hashpw], [bcrypt.checkpw],
      [bytes.decode] and [Fernet.decrypt].
    - [serve] and [run] serve requests one after another.  [interleave] runs
      register calls as threads of the server, which may be switched between
      the checks of a call and its insertion: the module holds no lock.
    - bcrypt, PyJWT, Fernet and the UTF-8 codec are libraries outside the
      repository.  Each is an interface (a class) whose laws are the ones the
      proofs below use; a small instance further down shows the laws can be
      met and lets every statement be run on concrete requests. *)

From Stdlib Require Import ZArith String Ascii List Bool Lia.
From stdpp Require Import base option list strings gmap pretty.

Local Open Scope string_scope.
Local Open Scope Z_scope.

(** ** Text *)

(** Python [bytes]; [str] is [string]. *)
Abbreviation bytes := string (only parsing).

(** [str.lower] on one character: the capitals among the code points 0 to
    255 are A-Z (65-90) and the Latin-1 capitals 192-214 and 216-222; each
    has its small letter 32 places on. *)
Definition lower_char (c : ascii) : ascii :=
  let n := nat_of_ascii c in
  if (((65 <=? n)%nat && (n <=? 90)%nat)
      || ((192 <=? n)%nat && (n <=? 214)%nat)
      || ((216 <=? n)%nat && (n <=? 222)%nat))%bool
  then ascii_of_nat (n + 32) else c.

Fixpoint map_chars (f : ascii -> ascii) (s : string) : string :=
  match s with
  | EmptyString => EmptyString
  | String c r => String (f c) (map_chars f r)
  end.

Definition lower (s : string) : string := map_chars lower_char s.

(** [s.replace(a, b)] for one-character [a] and [b]. *)
Definition replace (a b : ascii) (s : string) : string :=
  map_chars (fun c => if Ascii.eqb c a then b else c) s.

(** [s.startswith(p)]. *)
Definition startswith (p s : string) : bool := String.prefix p s.

(** The slice [s[n:]]. *)
Fixpoint slice_from (n : nat) (s : string) : string :=
  match n, s with
  | O, _ => s
  | S k, EmptyString => EmptyString
  | S k, String _ r => slice_from k r
  end.

(** Python truthiness of a string: [not s] holds of the empty string only. *)
Definition nonempty (s : string) : bool :=
  match s with EmptyString => false | String _ _ => true end.

(** ** JSON values, as [jsonify] receives them *)

Local Set Warnings "-register-all".

Inductive Json : Type :=
| JNull
| JBool (b : bool)
| JInt (n : Z)
| JStr (s : string)
| JList (l : list Json)
| JDict (fields : list (string * Json)).

Definition json_opt_str (o : option string) : Json :=
  match o with Some s => JStr s | None => JNull end.

(** The value of a field of a JSON object. *)
Fixpoint assoc (k : string) (fields : list (string * Json)) : option Json :=
  match fields with
  | [] => None
  | (k', v) :: rest => if String.eqb k k' then Some v else assoc k rest
  end.

Definition field (k : string) (j : Json) : option Json :=
  match j with JDict fields => assoc k fields | _ => None end.

(** Whether a string occurs as a string value anywhere inside a JSON value. *)
Fixpoint mentions (secret : string) (j : Json) : bool :=
  match j with
  | JStr s => String.eqb s secret
  | JList l => existsb (mentions secret) l
  | JDict fields => existsb (fun kv => mentions secret (snd kv)) fields
  | _ => false
  end.

(** A response: the JSON body and the HTTP status ([jsonify(...)] alone is 200). *)
Record Response : Type := mkResponse { status : Z; body : Json }.

Definition jsonify (fields : list (string * Json)) : Json := JDict fields.

Definition ok (fields : list (string * Json)) : Response :=
  {| status := 200; body := jsonify fields |}.

Definition error (code : Z) (message : string) : Response :=
  {| status := code; body := jsonify [("error", JStr message)] |}.

(** ** The libraries the service calls *)

(** What a call either returns or raises. *)
Inductive Raises (E A : Type) : Type :=
| Return (a : A)
| Raise (e : E).
Arguments Return {E A} a.
Arguments Raise {E A} e.

(** The Python runtime: the UTF-8 codec ([str.encode], [bytes.decode], which
    raises on bytes that are no UTF-8 text) and [datetime.isoformat]. *)
Class Python : Type := {
  encode_utf8 : string -> bytes;
  decode_utf8 : bytes -> option string;
  decode_error : bytes -> string;
  isoformat : Z -> string;
  decode_encode : forall s, decode_utf8 (encode_utf8 s) = Some s;
  encode_decode : forall b s, decode_utf8 b = Some s -> encode_utf8 s = b
}.

(** bcrypt: [hashpw(password, salt)] and [checkpw(password, hashed)].  Either
    call may raise (a password longer than bcrypt takes, a malformed hash);
    what is raised is carried as its [str(e)].  A password that [hashpw] has
    hashed checks against that hash. *)
Class Bcrypt : Type := {
  hashpw : bytes -> bytes -> Raises string bytes;
  checkpw : bytes -> bytes -> Raises string bool;
  checkpw_hashpw : forall password salt hashed,
    hashpw password salt = Return hashed -> checkpw password hashed = Return true
}.

(** The claims of a token, as [generate_jwt_token] builds them. *)
Record Payload : Type := mkPayload { user_id : string; exp : Z; iat : Z }.

(** PyJWT with HS256.  A token is a signing input (the header and the claims,
    [jwt_claims]) joined to a signature, the HMAC-SHA256 of the signing input
    under the key.  [jwt_split] takes a well-formed token apart and gives
    nothing for a malformed one; [jwt_read] gives the claims back. *)
Class PyJWT : Type := {
  jwt_claims : Payload -> string;
  jwt_read : string -> option Payload;
  jwt_join : string -> string -> string;
  jwt_split : string -> option (string * string);
  hmac_sha256 : string -> string -> string;
  jwt_read_claims : forall p, jwt_read (jwt_claims p) = Some p;
  jwt_split_join : forall m g, jwt_split (jwt_join m g) = Some (m, g)
}.

(** [jwt.encode(payload, key, algorithm='HS256')]. *)
Definition jwt_encode `{PyJWT} (p : Payload) (key : string) : string :=
  let m := jwt_claims p in
  jwt_join m (hmac_sha256 key m).

(** The signature check of [jwt.decode]: the claims of a well-formed token
    whose signature is the HMAC of its signing input under the key. *)
Definition jwt_unsign `{PyJWT} (token key : string) : option Payload :=
  match jwt_split token with
  | Some (m, g) => if String.eqb g (hmac_sha256 key m) then jwt_read m else None
  | None => None
  end.

(** Fernet: [encrypt] draws an IV and reads the clock, [decrypt] raises
    [InvalidToken] (here [None]) on anything that is not a token made under
    the key.  A token is URL-safe base64 text, never empty. *)
Class Fernet `{Python} : Type := {
  fernet_encrypt : bytes -> bytes -> Z -> bytes -> bytes;
  fernet_decrypt : bytes -> bytes -> option bytes;
  fernet_decrypt_encrypt : forall key iv now data,
    fernet_decrypt key (fernet_encrypt key iv now data) = Some data;
  fernet_token_text : forall key iv now data,
    exists s, decode_utf8 (fernet_encrypt key iv now data) = Some s /\ nonempty s = true
}.

(** The module-level secrets, drawn once when the process starts.
    [Fernet.generate_key()] gives URL-safe base64 text. *)
Class Startup `{Python} : Type := {
  SECRET_KEY : string;
  JWT_SECRET : string;
  ENCRYPTION_KEY : bytes;
  ENCRYPTION_KEY_text : is_Some (decode_utf8 ENCRYPTION_KEY)
}.

(** The two exceptions [jwt.decode] raises at [verify_jwt_token]. *)
Inductive JwtError : Type := ExpiredSignatureError | InvalidTokenError.

(** [jwt.decode(token, key, algorithms=['HS256'])] at clock [now]: the
    signature first, then the registered claims, [iat] (a token from the
    future is an [ImmatureSignatureError], a kind of [InvalidTokenError]) and
    [exp] (expired once [exp <= now]). *)
Definition jwt_decode `{PyJWT} (token key : string) (now : Z) : Raises JwtError Payload :=
  match jwt_unsign token key with
  | None => Raise InvalidTokenError
  | Some p =>
      if now <? iat p then Raise InvalidTokenError
      else if exp p <=? now then Raise ExpiredSignatureError
      else Return p
  end.

(** ** Data model *)

Record User : Type := mkUser {
  username : string;
  password_hash : bytes;
  email : string;
  created_at : Z;
  is_active : bool
}.

Record Event : Type := mkEvent {
  timestamp : Z;
  event_type : string;
  event_user_id : option string;
  details : list (string * Json);
  source_ip : option string
}.

Record Protocol : Type := mkProtocol {
  protocol_id : string;
  protocol_name : string;
  encryption_algorithm : string;
  key_length : Z;
  authentication_method : string;
  bypass_security : bool;
  protocol_user_id : string;
  protocol_created_at : Z
}.

(** The in-memory storage ([sessions_db] is never touched). *)
Record State : Type := mkState {
  users_db : gmap string User;
  security_logs : list Event;
  custom_protocols : gmap string Protocol
}.

(** What one request reads from the world. *)
Record Env : Type := mkEnv {
  utcnow : Z;
  gensalt : bytes;
  urandom : bytes
}.

Record Request : Type := mkRequest {
  authorization : option string;
  remote_addr : option string;
  json_text : gmap string string;
  json_key_length : option Z;
  json_bypass_security : option bool
}.

(** [data.get(key, dflt)] on the text fields of [request.json]. *)
Definition get (req : Request) (key dflt : string) : string :=
  default dflt (json_text req !! key).

Definition Handler : Type := Env -> Request -> State -> Response * State.

(** The values of [SECURITY_EVENTS]. *)
Inductive SecurityEvent : Type :=
| LOGIN_ATTEMPT | LOGIN_SUCCESS | LOGIN_FAILURE
| UNAUTHORIZED_ACCESS | ENCRYPTION_OPERATION | CUSTOM_PROTOCOL_USAGE.

Definition SECURITY_EVENTS (e : SecurityEvent) : string :=
  match e with
  | LOGIN_ATTEMPT => "login_attempt"
  | LOGIN_SUCCESS => "login_success"
  | LOGIN_FAILURE => "login_failure"
  | UNAUTHORIZED_ACCESS => "unauthorized_access"
  | ENCRYPTION_OPERATION => "encryption_operation"
  | CUSTOM_PROTOCOL_USAGE => "custom_protocol_usage"
  end.

(** ** The service *)

Section Service.
Context {py : Python} {bc : Bcrypt} {jw : PyJWT} {fe : Fernet} {su : Startup}.

(** [len] of a string, as a JSON number. *)
Definition len (s : string) : Json := JInt (Z.of_nat (String.length s)).

Definition event_json (e : Event) : Json :=
  JDict [("timestamp", JStr (isoformat (timestamp e)));
         ("event_type", JStr (event_type e));
         ("user_id", json_opt_str (event_user_id e));
         ("details", JDict (details e));
         ("source_ip", json_opt_str (source_ip e))].

Definition protocol_json (p : Protocol) : Json :=
  JDict [("id", JStr (protocol_id p));
         ("name", JStr (protocol_name p));
         ("encryption_algorithm", JStr (encryption_algorithm p));
         ("key_length", JInt (key_length p));
         ("authentication_method", JStr (authentication_method p));
         ("bypass_security", JBool (bypass_security p));
         ("user_id", JStr (protocol_user_id p));
         ("created_at", JStr (isoformat (protocol_created_at p)))].

(** [log_security_event]: one event appended to [security_logs] (the line
    written to the process logger is not part of the state). *)
Definition log_security_event (event_type : string) (user_id : option string)
    (details : list (string * Json)) (env : Env) (req : Request) (st : State) : State :=
  let event := {| timestamp := utcnow env;
                  event_type := event_type;
                  event_user_id := user_id;
                  details := details;
                  source_ip := remote_addr req |} in
  {| users_db := users_db st;
     security_logs := security_logs st ++ [event];
     custom_protocols := custom_protocols st |}.

Definition authenticate_user (st : State) (username password : string)
    : Raises string (option User) :=
  match users_db st !! username with
  | Some user =>
      match checkpw (encode_utf8 password) (password_hash user) with
      | Return true => Return (Some user)
      | Return false => Return None
      | Raise e => Raise e
      end
  | None => Return None
  end.

Definition generate_jwt_token (now : Z) (user_id : string) : string :=
  let payload := {| user_id := user_id; exp := now + 24 * 3600; iat := now |} in
  jwt_encode payload JWT_SECRET.

Definition verify_jwt_token (token : string) (now : Z) : option string :=
  match jwt_decode token JWT_SECRET now with
  | Return payload => Some (user_id payload)
  | Raise ExpiredSignatureError => None
  | Raise InvalidTokenError => None
  end.

(** The decorator's [if token.startswith('Bearer '): token = token[7:]]. *)
Definition bearer (token : string) : string :=
  if startswith "Bearer " token then slice_from 7 token else token.

(** The decorator [require_auth]. *)
Definition require_auth (f : string -> Handler) : Handler := fun env req st =>
  let no_token :=
    (error 401 "Authentication required",
     log_security_event (SECURITY_EVENTS UNAUTHORIZED_ACCESS) None
       [("reason", JStr "no_token")] env req st) in
  let invalid_token :=
    (error 401 "Invalid token",
     log_security_event (SECURITY_EVENTS UNAUTHORIZED_ACCESS) None
       [("reason", JStr "invalid_token")] env req st) in
  match authorization req with
  | None => no_token
  | Some token =>
      if negb (nonempty token) then no_token
      else
        match verify_jwt_token (bearer token) (utcnow env) with
        | None => invalid_token
        | Some user_id => if nonempty user_id then f user_id env req st else invalid_token
        end
  end.

Definition register : Handler := fun env req st =>
  let username := get req "username" "" in
  let password := get req "password" "" in
  let email := get req "email" "" in
  if negb (nonempty username) || negb (nonempty password) || negb (nonempty email)
  then (error 400 "Username, password, and email are required", st)
  else
    match users_db st !! username with
    | Some _ => (error 409 "Username already exists", st)
    | None =>
        match hashpw (encode_utf8 password) (gensalt env) with
        | Raise e => (error 500 e, st)
        | Return password_hash =>
            let user := {| username := username;
                           password_hash := password_hash;
                           email := email;
                           created_at := utcnow env;
                           is_active := true |} in
            let st1 := {| users_db := <[username := user]> (users_db st);
                          security_logs := security_logs st;
                          custom_protocols := custom_protocols st |} in
            let st2 := log_security_event (SECURITY_EVENTS LOGIN_SUCCESS) (Some username)
                         [("action", JStr "registration")] env req st1 in
            (ok [("message", JStr "User registered successfully");
                 ("username", JStr username);
                 ("status", JStr "success")], st2)
        end
    end.

(** [register] as a thread of the server runs it, in two moves: the checks
    (lines 106 to 115), which read the table and write nothing, and the rest
    (lines 117 to 136), which hashes, inserts and logs without reading the
    table again.  No lock is held from one move to the other. *)
Definition register_check (req : Request) (st : State) : option Response :=
  let username := get req "username" "" in
  let password := get req "password" "" in
  let email := get req "email" "" in
  if negb (nonempty username) || negb (nonempty password) || negb (nonempty email)
  then Some (error 400 "Username, password, and email are required")
  else
    match users_db st !! username with
    | Some _ => Some (error 409 "Username already exists")
    | None => None
    end.

Definition register_commit : Handler := fun env req st =>
  let username := get req "username" "" in
  let password := get req "password" "" in
  let email := get req "email" "" in
  match hashpw (encode_utf8 password) (gensalt env) with
  | Raise e => (error 500 e, st)
  | Return password_hash =>
      let user := {| username := username;
                     password_hash := password_hash;
                     email := email;
                     created_at := utcnow env;
                     is_active := true |} in
      let st1 := {| users_db := <[username := user]> (users_db st);
                    security_logs := security_logs st;
                    custom_protocols := custom_protocols st |} in
      let st2 := log_security_event (SECURITY_EVENTS LOGIN_SUCCESS) (Some username)
                   [("action", JStr "registration")] env req st1 in
      (ok [("message", JStr "User registered successfully");
           ("username", JStr username);
           ("status", JStr "success")], st2)
  end.

Definition login : Handler := fun env req st =>
  let username := get req "username" "" in
  let password := get req "password" "" in
  if negb (nonempty username) || negb (nonempty password)
  then (error 400 "Username and password are required", st)
  else
    let st1 := log_security_event (SECURITY_EVENTS LOGIN_ATTEMPT) (Some username) []
                 env req st in
    match authenticate_user st1 username password with
    | Raise e => (error 500 e, st1)
    | Return None =>
        (error 401 "Invalid credentials",
         log_security_event (SECURITY_EVENTS LOGIN_FAILURE) (Some username)
           [("reason", JStr "invalid_credentials")] env req st1)
    | Return (Some user) =>
        if negb (is_active user)
        then (error 403 "Account disabled",
              log_security_event (SECURITY_EVENTS LOGIN_FAILURE) (Some username)
                [("reason", JStr "account_disabled")] env req st1)
        else
          let token := generate_jwt_token (utcnow env) username in
          let st2 := log_security_event (SECURITY_EVENTS LOGIN_SUCCESS) (Some username) []
                       env req st1 in
          (ok [("message", JStr "Login successful");
               ("token", JStr token);
               ("user", JDict [("username", JStr username); ("email", JStr (email user))]);
               ("status", JStr "success")], st2)
    end.

Definition encrypt_data (user_id : string) : Handler := fun env req st =>
  let plaintext := get req "data" "" in
  if negb (nonempty plaintext)
  then (error 400 "Data to encrypt is required", st)
  else
    let encrypted_data :=
      fernet_encrypt ENCRYPTION_KEY (urandom env) (utcnow env) (encode_utf8 plaintext) in
    let st1 := log_security_event (SECURITY_EVENTS ENCRYPTION_OPERATION) (Some user_id)
                 [("operation", JStr "encrypt"); ("data_length", len plaintext)] env req st in
    match decode_utf8 encrypted_data with
    | None => (error 500 (decode_error encrypted_data), st1)
    | Some encrypted_text =>
        match decode_utf8 ENCRYPTION_KEY with
        | None => (error 500 (decode_error ENCRYPTION_KEY), st1)
        | Some key_text =>
            (ok [("encrypted_data", JStr encrypted_text);
                 ("encryption_key", JStr key_text);
                 ("status", JStr "success")], st1)
        end
    end.

Definition decrypt_data (user_id : string) : Handler := fun env req st =>
  let encrypted_data := get req "data" "" in
  if negb (nonempty encrypted_data)
  then (error 400 "Encrypted data is required", st)
  else
    match fernet_decrypt ENCRYPTION_KEY (encode_utf8 encrypted_data) with
    | None => (error 500 "", st)
    | Some decrypted_data =>
        let st1 := log_security_event (SECURITY_EVENTS ENCRYPTION_OPERATION) (Some user_id)
                     [("operation", JStr "decrypt"); ("data_length", len decrypted_data)]
                     env req st in
        match decode_utf8 decrypted_data with
        | None => (error 500 (decode_error decrypted_data), st1)
        | Some decrypted_text =>
            (ok [("decrypted_data", JStr decrypted_text); ("status", JStr "success")], st1)
        end
    end.

(** The id a protocol is stored under. *)
Definition make_protocol_id (user_id protocol_name : string) : string :=
  user_id +:+ "_" +:+ lower (replace " " "_" protocol_name).

Definition create_custom_protocol (user_id : string) : Handler := fun env req st =>
  let protocol_name := get req "name" "" in
  let encryption_algorithm := get req "encryption_algorithm" "AES" in
  let key_length := default 256 (json_key_length req) in
  let authentication_method := get req "authentication_method" "OAuth 2.0" in
  let bypass_security := default false (json_bypass_security req) in
  if negb (nonempty protocol_name)
  then (error 400 "Protocol name is required", st)
  else
    let protocol_id := make_protocol_id user_id protocol_name in
    let protocol := {| protocol_id := protocol_id;
                       protocol_name := protocol_name;
                       encryption_algorithm := encryption_algorithm;
                       key_length := key_length;
                       authentication_method := authentication_method;
                       bypass_security := bypass_security;
                       protocol_user_id := user_id;
                       protocol_created_at := utcnow env |} in
    let st1 := {| users_db := users_db st;
                  security_logs := security_logs st;
                  custom_protocols := <[protocol_id := protocol]> (custom_protocols st) |} in
    let st2 := log_security_event (SECURITY_EVENTS CUSTOM_PROTOCOL_USAGE) (Some user_id)
                 [("protocol_id", JStr protocol_id); ("action", JStr "create");
                  ("bypass_security", JBool bypass_security)] env req st1 in
    (ok [("protocol_id", JStr protocol_id);
         ("protocol", protocol_json protocol);
         ("status", JStr "success")], st2).

Definition apply_custom_protocol (user_id protocol_id : string) : Handler :=
  fun env req st =>
  match custom_protocols st !! protocol_id with
  | None => (error 404 "Protocol not found", st)
  | Some protocol =>
      if negb (String.eqb (protocol_user_id protocol) user_id)
      then (error 403 "Access denied", st)
      else
        let target_data := get req "data" "" in
        if negb (nonempty target_data)
        then (error 400 "Data to secure is required", st)
        else
          let secured_data :=
            "Secured " +:+ target_data +:+ " with " +:+ encryption_algorithm protocol
            +:+ ", " +:+ pretty (key_length protocol) +:+ "-bit key, and "
            +:+ authentication_method protocol +:+ " authentication." in
          let st1 := log_security_event (SECURITY_EVENTS CUSTOM_PROTOCOL_USAGE) (Some user_id)
                       [("protocol_id", JStr protocol_id); ("action", JStr "apply");
                        ("data_length", len target_data)] env req st in
          (ok [("protocol_id", JStr protocol_id);
               ("secured_data", JStr secured_data);
               ("protocol_details", protocol_json protocol);
               ("status", JStr "success")], st1)
  end.

(** The list comprehension of [get_security_logs]. *)
Definition user_logs (user_id : string) (logs : list Event) : list Event :=
  filter (fun log => event_user_id log = Some user_id) logs.

Definition get_security_logs (user_id : string) : Handler := fun env req st =>
  let logs := user_logs user_id (security_logs st) in
  (ok [("user_id", JStr user_id);
       ("security_logs", JList (event_json <$> logs));
       ("log_count", JInt (Z.of_nat (length logs)));
       ("status", JStr "success")], st).

(** The routes behind the decorator. *)
Definition route_encrypt : Handler := require_auth encrypt_data.
Definition route_decrypt : Handler := require_auth decrypt_data.
Definition route_create_protocol : Handler := require_auth create_custom_protocol.
Definition route_apply_protocol (protocol_id : string) : Handler :=
  require_auth (fun user_id => apply_custom_protocol user_id protocol_id).
Definition route_security_logs : Handler := require_auth get_security_logs.

Definition health : Handler := fun env req st =>
  (ok [("status", JStr "healthy"); ("service", JStr "security")], st).

(** [list_protocols].  The source answers in the insertion order of the
    dictionary; the finite map keeps no such order, so the list here comes in
    the map's own order and the statements about it are about which records
    it holds and how many. *)
Definition list_protocols (user_id : string) : Handler := fun env req st =>
  let user_protocols :=
    filter (fun p => protocol_user_id p = user_id)
           (snd <$> map_to_list (custom_protocols st)) in
  (ok [("user_id", JStr user_id);
       ("protocols", JList (protocol_json <$> user_protocols));
       ("protocol_count", JInt (Z.of_nat (length user_protocols)));
       ("status", JStr "success")], st).

Definition route_protocols : Handler := require_auth list_protocols.

(** The URL map: every [@app.route] of the module. *)
Inductive Route : Type :=
| Health | Register | Login | Encrypt | Decrypt
| CreateProtocol | ApplyProtocol (protocol_id : string) | SecurityLogs | Protocols.

Definition dispatch (route : Route) : Handler :=
  match route with
  | Health => health
  | Register => register
  | Login => login
  | Encrypt => route_encrypt
  | Decrypt => route_decrypt
  | CreateProtocol => route_create_protocol
  | ApplyProtocol protocol_id => route_apply_protocol protocol_id
  | SecurityLogs => route_security_logs
  | Protocols => route_protocols
  end.

(** The storage when the module is loaded, and after the [__main__] block has
    put the default admin user in (the block raises when [hashpw] does). *)
Definition loaded : State :=
  {| users_db := ∅; security_logs := []; custom_protocols := ∅ |}.

Definition main (env : Env) : Raises string State :=
  match hashpw (encode_utf8 "admin123") (gensalt env) with
  | Raise e => Raise e
  | Return admin_password =>
      Return
        {| users_db := <["admin" := {| username := "admin";
                                       password_hash := admin_password;
                                       email := "admin@example.com";
                                       created_at := utcnow env;
                                       is_active := true |}]> (users_db loaded);
           security_logs := security_logs loaded;
           custom_protocols := custom_protocols loaded |}
  end.

(** *** Vocabulary of the statements *)

(** No two signing inputs share a signature under the key. *)
Definition collision_free (key : string) : Prop :=
  forall m m', hmac_sha256 key m = hmac_sha256 key m' -> m = m'.

(** A request passes the decorator as user [uid]. *)
Definition authenticated (env : Env) (req : Request) (uid : string) : Prop :=
  exists header,
    authorization req = Some header /\ nonempty header = true /\
    verify_jwt_token (bearer header) (utcnow env) = Some uid /\ nonempty uid = true.

(** What the decorator returns when it turns a request away. *)
Definition denied (reason message : string) (env : Env) (req : Request) (st : State)
    : Response * State :=
  (error 401 message,
   log_security_event (SECURITY_EVENTS UNAUTHORIZED_ACCESS) None
     [("reason", JStr reason)] env req st).

(** The record [create_custom_protocol] builds from a request. *)
Definition protocol_of (uid : string) (env : Env) (req : Request) : Protocol :=
  {| protocol_id := make_protocol_id uid (get req "name" "");
     protocol_name := get req "name" "";
     encryption_algorithm := get req "encryption_algorithm" "AES";
     key_length := default 256 (json_key_length req);
     authentication_method := get req "authentication_method" "OAuth 2.0";
     bypass_security := default false (json_bypass_security req);
     protocol_user_id := uid;
     protocol_created_at := utcnow env |}.

(** The record [register] files for a request, and what it answers. *)
Definition user_of (env : Env) (req : Request) (hashed : bytes) : User :=
  {| username := get req "username" "";
     password_hash := hashed;
     email := get req "email" "";
     created_at := utcnow env;
     is_active := true |}.

Definition registered (name : string) : Response :=
  ok [("message", JStr "User registered successfully");
      ("username", JStr name);
      ("status", JStr "success")].

(** Calls served one after another, each on the state the one before left. *)
Fixpoint serve (h : Handler) (calls : list (Env * Request)) (st : State)
    : list Response * State :=
  match calls with
  | [] => ([], st)
  | (env, req) :: rest =>
      let (r, st1) := h env req st in
      let (rs, st2) := serve h rest st1 in
      (r :: rs, st2)
  end.








(** Requests to any routes, served one after another. *)
Fixpoint run (calls : list (Route * Env * Request)) (st : State) : list Response * State :=
  match calls with
  | [] => ([], st)
  | (route, env, req) :: rest =>
      let (r, st1) := dispatch route env req st in
      let (rs, st2) := run rest st1 in
      (r :: rs, st2)
  end.

(** What the service keeps true of its tables: a user is filed under the
    username of the record, which is not empty, and is active; a protocol is
    filed under the id of the record, which is the id of its owner and name,
    neither of them empty. *)
Definition well_formed (st : State) : Prop :=
  (forall k u, users_db st !! k = Some u ->
     username u = k /\ k <> "" /\ is_active u = true)
  /\ (forall k p, custom_protocols st !! k = Some p ->
        protocol_id p = k /\
        k = make_protocol_id (protocol_user_id p) (protocol_name p) /\
        protocol_user_id p <> "" /\ protocol_name p <> "").

(** One state comes after another: the log has only grown at its end, and
    every user record is still there, as it was. *)
Definition extends (st st' : State) : Prop :=
  security_logs st `prefix_of` security_logs st'
  /\ (forall k u, users_db st !! k = Some u -> users_db st' !! k = Some u).

(** A handler takes every state to one related to it by [R]. *)
Definition keeps (R : State -> State -> Prop) (h : Handler) : Prop :=
  forall env req st, R st (snd (h env req st)).

(** A handler appends events under one user id only, and does nothing else to
    the log. *)
Definition files_under (who : option string) (h : Handler) : Prop :=
  forall env req st,
    exists added,
      security_logs (snd (h env req st)) = (security_logs st ++ added)%list /\
      Forall (fun e => event_user_id e = who) added.

Definition same_users (st st' : State) : Prop := users_db st' = users_db st.

Definition same_protocols (st st' : State) : Prop :=
  custom_protocols st' = custom_protocols st.

Definition stays_well_formed (st st' : State) : Prop :=
  well_formed st -> well_formed st'.

End Service.

(** ** A small instance of the libraries

    Stand-ins that meet the laws above and compute, for running the service
    on concrete requests.  Text is its own encoding; a hash is the password
    followed by the salt, and a password of more than 72 bytes is refused; a
    signature is the key followed by the message, and a token is the length
    of the signing input, the signing input and the signature; a ciphertext
    is a tag, the key and the plaintext. *)

(** [s] without its prefix [p], when it has that prefix. *)
Fixpoint strip_prefix (p s : string) : option string :=
  match p, s with
  | EmptyString, _ => Some s
  | String a p', String b s' => if Ascii.eqb a b then strip_prefix p' s' else None
  | String _ _, EmptyString => None
  end.

(** Binary digits of a positive number, lowest first, closed by a dot. *)
Fixpoint write_pos (p : positive) (rest : string) : string :=
  match p with
  | xH => String "." rest
  | xO q => String "0" (write_pos q rest)
  | xI q => String "1" (write_pos q rest)
  end.

Fixpoint read_pos (s : string) : option (positive * string) :=
  match s with
  | EmptyString => None
  | String c r =>
      if Ascii.eqb c "." then Some (xH, r)
      else if Ascii.eqb c "0" then prod_map xO id <$> read_pos r
      else if Ascii.eqb c "1" then prod_map xI id <$> read_pos r
      else None
  end.

Definition write_Z (z : Z) (rest : string) : string :=
  match z with
  | Z0 => String "z" rest
  | Zpos p => String "+" (write_pos p rest)
  | Zneg p => String "-" (write_pos p rest)
  end.

Definition read_Z (s : string) : option (Z * string) :=
  match s with
  | EmptyString => None
  | String c r =>
      if Ascii.eqb c "z" then Some (0, r)
      else if Ascii.eqb c "+" then prod_map Zpos id <$> read_pos r
      else if Ascii.eqb c "-" then prod_map Zneg id <$> read_pos r
      else None
  end.

(** The first [n] characters of a string and the rest, when it has as many. *)
Fixpoint cut (n : nat) (s : string) : option (string * string) :=
  match n, s with
  | O, _ => Some (EmptyString, s)
  | S k, String c r => prod_map (String c) id <$> cut k r
  | S k, EmptyString => None
  end.

Definition demo_too_long : string :=
  "password cannot be longer than 72 bytes, truncate manually if necessary (e.g. my_password[:72])".

Definition demo_hashpw (password salt : bytes) : Raises string bytes :=
  if (72 <? String.length password)%nat then Raise demo_too_long
  else Return (password +:+ "$" +:+ salt).

Definition demo_checkpw (password hashed : bytes) : Raises string bool :=
  if (72 <? String.length password)%nat then Raise demo_too_long
  else Return (String.prefix (password +:+ "$") hashed).

Definition demo_jwt_claims (p : Payload) : string :=
  write_Z (exp p) (write_Z (iat p) (user_id p)).

Definition demo_jwt_read (m : string) : option Payload :=
  '(e, rest) ← read_Z m;
  '(i, uid) ← read_Z rest;
  Some {| user_id := uid; exp := e; iat := i |}.

Definition demo_jwt_join (m g : string) : string :=
  write_pos (Pos.of_succ_nat (String.length m)) (m +:+ g).

Definition demo_jwt_split (token : string) : option (string * string) :=
  '(n, rest) ← read_pos token;
  cut (Nat.pred (Pos.to_nat n)) rest.

Definition demo_hmac_sha256 (key m : string) : string := key +:+ m.

Definition demo_fernet_encrypt (key iv : bytes) (now : Z) (data : bytes) : bytes :=
  String "g" (key +:+ data).

Definition demo_fernet_decrypt (key token : bytes) : option bytes :=
  strip_prefix (String "g" key) token.

(** * Proofs *)

(** ** The small instance meets the laws *)

Lemma append_cons (x : ascii) (a b : string) : String x a +:+ b = String x (a +:+ b).
Proof. reflexivity. Qed.

Lemma append_assoc (a b c : string) : (a +:+ b) +:+ c = a +:+ (b +:+ c).
Proof.
  induction a as [|x a IH]; [reflexivity|].
  rewrite !append_cons. f_equal. exact IH.
Qed.

Lemma strip_prefix_app (p s : string) : strip_prefix p (p +:+ s) = Some s.
Proof.
  induction p as [|a p IH]; [reflexivity|].
  rewrite append_cons. simpl. rewrite Ascii.eqb_refl. exact IH.
Qed.

Lemma prefix_app (p s : string) : String.prefix p (p +:+ s) = true.
Proof.
  induction p as [|a p IH].
  - destruct s; reflexivity.
  - rewrite append_cons. simpl.
    destruct (ascii_dec a a); [exact IH | congruence].
Qed.

Lemma read_write_pos (p : positive) (rest : string) :
  read_pos (write_pos p rest) = Some (p, rest).
Proof.
  induction p as [q IH|q IH|]; simpl; try rewrite IH; reflexivity.
Qed.

Lemma read_write_Z (z : Z) (rest : string) : read_Z (write_Z z rest) = Some (z, rest).
Proof.
  destruct z; simpl; try rewrite read_write_pos; reflexivity.
Qed.

Lemma cut_app (m g : string) : cut (String.length m) (m +:+ g) = Some (m, g).
Proof.
  induction m as [|c m IH]; [reflexivity|].
  rewrite append_cons. cbn [String.length cut]. rewrite IH. reflexivity.
Qed.

Lemma demo_checkpw_hashpw (password salt hashed : bytes) :
  demo_hashpw password salt = Return hashed ->
  demo_checkpw password hashed = Return true.
Proof.
  unfold demo_checkpw, demo_hashpw.
  destruct (72 <? String.length password)%nat; [discriminate|].
  intros [= <-]. rewrite <- append_assoc, prefix_app. reflexivity.
Qed.

Lemma demo_jwt_read_claims (p : Payload) : demo_jwt_read (demo_jwt_claims p) = Some p.
Proof.
  unfold demo_jwt_read, demo_jwt_claims.
  rewrite read_write_Z. simpl. rewrite read_write_Z. simpl.
  destruct p; reflexivity.
Qed.

Lemma demo_jwt_split_join (m g : string) :
  demo_jwt_split (demo_jwt_join m g) = Some (m, g).
Proof.
  unfold demo_jwt_split, demo_jwt_join.
  rewrite read_write_pos. simpl.
  rewrite SuccNat2Pos.id_succ. apply cut_app.
Qed.

Lemma demo_hmac_sha256_inj (key m m' : string) :
  demo_hmac_sha256 key m = demo_hmac_sha256 key m' -> m = m'.
Proof. unfold demo_hmac_sha256. apply (inj (String.append key)). Qed.

Lemma demo_fernet_decrypt_encrypt (key iv : bytes) (now : Z) (data : bytes) :
  demo_fernet_decrypt key (demo_fernet_encrypt key iv now data) = Some data.
Proof.
  unfold demo_fernet_decrypt, demo_fernet_encrypt. simpl.
  apply strip_prefix_app.
Qed.

Definition demo_python : Python :=
  {| encode_utf8 := fun s => s;
     decode_utf8 := fun b => Some b;
     decode_error := fun _ => "invalid start byte";
     isoformat := fun t => pretty t;
     decode_encode := fun s => eq_refl;
     encode_decode := fun b s (E : Some b = Some s) =>
       eq_sym (f_equal (default b) E) |}.

Definition demo_bcrypt : Bcrypt :=
  {| hashpw := demo_hashpw; checkpw := demo_checkpw; checkpw_hashpw := demo_checkpw_hashpw |}.

Definition demo_jwt : PyJWT :=
  {| jwt_claims := demo_jwt_claims;
     jwt_read := demo_jwt_read;
     jwt_join := demo_jwt_join;
     jwt_split := demo_jwt_split;
     hmac_sha256 := demo_hmac_sha256;
     jwt_read_claims := demo_jwt_read_claims;
     jwt_split_join := demo_jwt_split_join |}.

Lemma demo_fernet_token_text (key iv : bytes) (now : Z) (data : bytes) :
  exists s, @decode_utf8 demo_python (demo_fernet_encrypt key iv now data) = Some s
            /\ nonempty s = true.
Proof. eexists; split; reflexivity. Qed.

Definition demo_fernet : @Fernet demo_python :=
  {| fernet_encrypt := demo_fernet_encrypt;
     fernet_decrypt := demo_fernet_decrypt;
     fernet_decrypt_encrypt := demo_fernet_decrypt_encrypt;
     fernet_token_text := demo_fernet_token_text |}.

Lemma demo_key_text : is_Some (@decode_utf8 demo_python "k3y=").
Proof. eexists; reflexivity. Qed.

Definition demo_startup : @Startup demo_python :=
  {| SECRET_KEY := "c0ffee"; JWT_SECRET := "5ec2e7"; ENCRYPTION_KEY := "k3y=";
     ENCRYPTION_KEY_text := demo_key_text |}.

(** *** Requests and states to run the service on *)

Section Fixtures.
#[local] Existing Instances demo_python demo_bcrypt demo_jwt demo_fernet demo_startup.

(** A request with the given Authorization header and text fields. *)
Definition demo_request (header : option string) (fields : list (string * string))
    : Request :=
  {| authorization := header;
     remote_addr := Some "10.0.0.7";
     json_text := list_to_map fields;
     json_key_length := None;
     json_bypass_security := None |}.

Definition demo_env (now : Z) : Env :=
  {| utcnow := now; gensalt := "na"; urandom := "cl" |}.

(** The storage of a process that has just started. *)
Definition demo_state : State :=
  {| users_db := ∅; security_logs := []; custom_protocols := ∅ |}.

(** The token "alice" is issued at time 0, as a bearer header. *)
Definition alice_header : string := "Bearer " +:+ generate_jwt_token 0 "alice".

(** A user table: alice is registered and active, bob is disabled; each hash
    is the one the stand-in [hashpw] gives for the password and the salt. *)
Definition demo_users : State :=
  {| users_db :=
       <["alice" := {| username := "alice"; password_hash := "Secr3t!$na";
                       email := "a@x.com"; created_at := 0; is_active := true |}]>
       (<["bob" := {| username := "bob"; password_hash := "hunter2$na";
                      email := "b@x.com"; created_at := 0; is_active := false |}]> ∅);
     security_logs := [];
     custom_protocols := ∅ |}.

Definition login_request (name password : string) : Request :=
  demo_request None [("username", name); ("password", password)].

(** Alice creates the protocol "Vault", twice, with two algorithms. *)
Definition vault_request (algorithm : string) : Request :=
  demo_request (Some alice_header) [("name", "Vault"); ("encryption_algorithm", algorithm)].

Definition vault_state : State :=
  snd (route_create_protocol (demo_env 10) (vault_request "AES") demo_state).

(** The state after alice's create at 10, an anonymous call turned away at 40
    and alice's second create at 50. *)
Definition busy_state : State :=
  snd (route_create_protocol (demo_env 50) (vault_request "ROT13")
         (snd (route_security_logs (demo_env 40) (demo_request None []) vault_state))).

Definition register_request (name password mail : string) : Request :=
  demo_request None [("username", name); ("password", password); ("email", mail)].

(** A password of 73 bytes, one more than bcrypt takes. *)
Definition long_password : string :=
  "aaaaaaaaaaaaaaaaaaaaaaaaaaaaaaaaaaaaaaaaaaaaaaaaaaaaaaaaaaaaaaaaaaaaaaaaa".


(** The storage after the [__main__] block has run at time 0. *)
Definition started : State :=
  match main (demo_env 0) with
  | Return st => st
  | Raise _ => loaded
  end.

End Fixtures.

(** ** Facts about the service *)

Section Facts.
Context {py : Python} {bc : Bcrypt} {jw : PyJWT} {fe : Fernet} {su : Startup}.

Lemma nonempty_true (s : string) : nonempty s = true <-> s <> "".
Proof. destruct s; simpl; split; congruence. Qed.

Lemma nonempty_false (s : string) : nonempty s = false <-> s = "".
Proof. destruct s; simpl; split; congruence. Qed.

Lemma log_security_event_logs kind user info env req st :
  security_logs (log_security_event kind user info env req st) =
  (security_logs st ++
    [{| timestamp := utcnow env; event_type := kind;
        event_user_id := user; details := info; source_ip := remote_addr req |}])%list.
Proof. reflexivity. Qed.

Lemma log_security_event_users kind user info env req st :
  users_db (log_security_event kind user info env req st) = users_db st.
Proof. reflexivity. Qed.

Lemma log_security_event_protocols kind user info env req st :
  custom_protocols (log_security_event kind user info env req st) = custom_protocols st.
Proof. reflexivity. Qed.

Lemma authenticate_user_log kind user info env req st name password :
  authenticate_user (log_security_event kind user info env req st) name password =
  authenticate_user st name password.
Proof. reflexivity. Qed.

(** [authenticate_user] gives a record exactly when the name is in the table
    and the password checks against the stored hash. *)
Lemma authenticate_user_Some st name password user :
  authenticate_user st name password = Return (Some user) <->
  users_db st !! name = Some user /\
  checkpw (encode_utf8 password) (password_hash user) = Return true.
Proof.
  unfold authenticate_user.
  destruct (users_db st !! name) as [u|] eqn:Hu.
  - destruct (checkpw (encode_utf8 password) (password_hash u)) as [[|]|e] eqn:Hc.
    + split; [intros [= <-]; auto | intros [[= <-] _]; reflexivity].
    + split; [discriminate | intros [[= <-] Hc']; congruence].
    + split; [discriminate | intros [[= <-] Hc']; congruence].
  - split; [discriminate | intros [? _]; discriminate].
Qed.

Lemma authenticate_user_None st name password :
  authenticate_user st name password = Return None <->
  users_db st !! name = None \/
  exists user, users_db st !! name = Some user /\
               checkpw (encode_utf8 password) (password_hash user) = Return false.
Proof.
  unfold authenticate_user.
  destruct (users_db st !! name) as [u|] eqn:Hu.
  - destruct (checkpw (encode_utf8 password) (password_hash u)) as [[|]|e] eqn:Hc.
    + split; [discriminate | intros [? | (u' & [= <-] & Hc')]; congruence].
    + split; [right; eauto | reflexivity].
    + split; [discriminate | intros [? | (u' & [= <-] & Hc')]; congruence].
  - split; [left; reflexivity | reflexivity].
Qed.

Lemma authenticate_user_Raise st name password e :
  authenticate_user st name password = Raise e <->
  exists user, users_db st !! name = Some user /\
               checkpw (encode_utf8 password) (password_hash user) = Raise e.
Proof.
  unfold authenticate_user.
  destruct (users_db st !! name) as [u|] eqn:Hu.
  - destruct (checkpw (encode_utf8 password) (password_hash u)) as [[|]|e'] eqn:Hc.
    + split; [discriminate | intros (u' & [= <-] & Hc'); congruence].
    + split; [discriminate | intros (u' & [= <-] & Hc'); congruence].
    + split; [intros [= <-]; eauto | intros (u' & [= <-] & Hc'); congruence].
  - split; [discriminate | intros (u' & ? & _); discriminate].
Qed.

(** A request that passes the decorator reaches the handler, with the user id
    of its token. *)
Lemma require_auth_pass f env req st uid :
  authenticated env req uid -> require_auth f env req st = f uid env req st.
Proof.
  intros (header & Hh & Hne & Hv & Hu).
  unfold require_auth. rewrite Hh, Hne. cbn [negb].
  rewrite Hv, Hu. reflexivity.
Qed.

(** *** Logging in *)

(** X18.  Logging in yields the user id (a 200 response that names the user
    and carries a token issued to that name) only if the name is in the user
    table, the record is active and [checkpw] accepts the password against
    the stored hash.  In every other case (absent user, inactive user, a
    password [checkpw] does not accept) the response is not a success and
    carries neither token nor user.  The response for an absent user and the
    response for a password that [checkpw] finds wrong are the same response.
    And a present, active user with the right password does get the 200. *)
Theorem login_verifies_credentials env req st :
  let name := get req "username" "" in
  let password := get req "password" "" in
  let r := fst (login env req st) in
  (status r = 200 ->
   exists user,
     users_db st !! name = Some user /\ is_active user = true /\
     checkpw (encode_utf8 password) (password_hash user) = Return true /\
     field "token" (body r) = Some (JStr (generate_jwt_token (utcnow env) name)) /\
     field "user" (body r) =
       Some (JDict [("username", JStr name); ("email", JStr (email user))]))
  /\
  ((users_db st !! name = None \/
    exists user, users_db st !! name = Some user /\
      (is_active user = false \/
       checkpw (encode_utf8 password) (password_hash user) <> Return true)) ->
   status r <> 200 /\ field "token" (body r) = None /\ field "user" (body r) = None)
  /\
  (forall st' user',
     users_db st !! name = None ->
     users_db st' !! name = Some user' ->
     checkpw (encode_utf8 password) (password_hash user') = Return false ->
     fst (login env req st') = r)
  /\
  (forall user,
     name <> "" -> password <> "" ->
     users_db st !! name = Some user -> is_active user = true ->
     checkpw (encode_utf8 password) (password_hash user) = Return true ->
     status r = 200).
Proof.
  intros name password r. subst r. unfold login.
  fold name password.
  destruct (nonempty name) eqn:Hn; simpl;
    [destruct (nonempty password) eqn:Hp; simpl|].
  - (* both fields given *)
    rewrite authenticate_user_log.
    destruct (authenticate_user st name password) as [[user|]|e] eqn:Ha.
    + apply authenticate_user_Some in Ha as [Hu Hc].
      destruct (is_active user) eqn:Hact; simpl.
      * split; [intros _; exists user; repeat split; assumption|].
        split; [|split; [intros st' user' Hnone; congruence | reflexivity]].
        intros [Hnone | (u & Hu' & [Hi | Hw])]; congruence.
      * split; [discriminate|].
        split; [intros _; repeat split; discriminate|].
        split; [intros st' user' Hnone; congruence|].
        intros u _ _ Hu' Hact' _. congruence.
    + apply authenticate_user_None in Ha.
      split; [discriminate|].
      split; [intros _; repeat split; discriminate|].
      split.
      * intros st' user' _ Hu' Hc'. rewrite authenticate_user_log.
        assert (authenticate_user st' name password = Return None) as ->;
          [|reflexivity].
        apply authenticate_user_None. right. eauto.
      * intros u _ _ Hu Hact Hc.
        destruct Ha as [Hnone | (u' & Hu' & Hc')]; congruence.
    + apply authenticate_user_Raise in Ha as (u0 & Hu0 & Hc0).
      split; [discriminate|].
      split; [intros _; repeat split; discriminate|].
      split; [intros st' user' Hnone; congruence|].
      intros u _ _ Hu _ Hc. congruence.
  - apply nonempty_false in Hp.
    split; [discriminate|].
    split; [intros _; repeat split; discriminate|].
    split; [reflexivity | intros; contradiction].
  - apply nonempty_false in Hn.
    split; [discriminate|].
    split; [intros _; repeat split; discriminate|].
    split; [reflexivity | intros; contradiction].
Qed.

(** C3 on the code.  [checkpw] is called only when the username is in the
    table (line 55), and nothing between it and the handler's
    [except Exception] catches what it raises.  So a password on which
    [checkpw] raises is answered 401 "Invalid credentials" when the user is
    absent and 500 when the user is present, with [login_attempt] the only
    event logged: the two responses tell a present user from an absent one. *)
Theorem login_tells_users_apart env req st st' user e :
  let name := get req "username" "" in
  let password := get req "password" "" in
  name <> "" -> password <> "" ->
  users_db st !! name = None ->
  users_db st' !! name = Some user ->
  checkpw (encode_utf8 password) (password_hash user) = Raise e ->
  fst (login env req st) = error 401 "Invalid credentials"
  /\ fst (login env req st') = error 500 e
  /\ security_logs (snd (login env req st')) =
     (security_logs st' ++
        [{| timestamp := utcnow env; event_type := "login_attempt";
            event_user_id := Some name; details := [];
            source_ip := remote_addr req |}])%list.
Proof.
  intros name password Hn Hp Habsent Hpresent Hraise.
  apply nonempty_true in Hn, Hp.
  unfold login. fold name password. rewrite Hn, Hp. cbn [negb orb].
  rewrite !authenticate_user_log.
  assert (authenticate_user st name password = Return None) as ->
    by (apply authenticate_user_None; left; exact Habsent).
  assert (authenticate_user st' name password = Raise e) as ->
    by (apply authenticate_user_Raise; eauto).
  repeat split; reflexivity.
Qed.

(** *** Tokens *)

Lemma jwt_unsign_encode p key : jwt_unsign (jwt_encode p key) key = Some p.
Proof.
  unfold jwt_unsign, jwt_encode. rewrite jwt_split_join, String.eqb_refl.
  apply jwt_read_claims.
Qed.

Lemma jwt_unsign_malformed token key :
  jwt_split token = None -> jwt_unsign token key = None.
Proof. unfold jwt_unsign. intros ->. reflexivity. Qed.

Lemma jwt_unsign_forged m g key :
  g <> hmac_sha256 key m -> jwt_unsign (jwt_join m g) key = None.
Proof.
  intros Hg. unfold jwt_unsign. rewrite jwt_split_join.
  apply String.eqb_neq in Hg. rewrite Hg. reflexivity.
Qed.

Lemma jwt_unsign_signed token key p :
  jwt_unsign token key = Some p ->
  exists m, jwt_split token = Some (m, hmac_sha256 key m) /\ jwt_read m = Some p.
Proof.
  unfold jwt_unsign. destruct (jwt_split token) as [[m g]|]; [|discriminate].
  destruct (String.eqb_spec g (hmac_sha256 key m)) as [-> |]; [|discriminate].
  eauto.
Qed.

Lemma jwt_decode_unsigned token key now :
  jwt_unsign token key = None -> jwt_decode token key now = Raise InvalidTokenError.
Proof. unfold jwt_decode. intros ->. reflexivity. Qed.

Lemma jwt_decode_issued now uid now' :
  jwt_decode (generate_jwt_token now uid) JWT_SECRET now' =
  if now' <? now then Raise InvalidTokenError
  else if now + 24 * 3600 <=? now' then Raise ExpiredSignatureError
  else Return {| user_id := uid; exp := now + 24 * 3600; iat := now |}.
Proof.
  unfold jwt_decode, generate_jwt_token.
  rewrite jwt_unsign_encode. reflexivity.
Qed.

Lemma verify_jwt_token_issued now uid now' :
  now <= now' < now + 24 * 3600 ->
  verify_jwt_token (generate_jwt_token now uid) now' = Some uid.
Proof.
  intros [Hlo Hhi]. unfold verify_jwt_token. rewrite jwt_decode_issued.
  destruct (Z.ltb_spec now' now); [lia|].
  destruct (Z.leb_spec (now + 24 * 3600) now'); [lia|]. reflexivity.
Qed.

Lemma verify_jwt_token_raise token now e :
  jwt_decode token JWT_SECRET now = Raise e -> verify_jwt_token token now = None.
Proof.
  unfold verify_jwt_token. intros ->. destruct e; reflexivity.
Qed.

(** C4, as amended.  A token issued at time [T] for a user id verifies to
    that user id at every check time [T'] with [T <= T' < T + 24h].  From
    [T + 24h] on [jwt.decode] raises [ExpiredSignatureError].  It raises
    [InvalidTokenError] on a malformed string, on a signing input joined to
    anything but its HMAC under [JWT_SECRET] (an altered signature), and on
    the issued token's signature joined to another signing input whose HMAC
    it is not (an altered payload: every other signing input, when no two
    share an HMAC under the secret).  [verify_jwt_token] turns both
    exceptions into the same [None], not into two distinct errors; and
    whatever it verifies to a user id is a well-formed token that carries the
    HMAC of its signing input. *)
Theorem token_lifetime (T T' : Z) (uid : string) :
  let issued := jwt_claims {| user_id := uid; exp := T + 24 * 3600; iat := T |} in
  let altered m := jwt_join m (hmac_sha256 JWT_SECRET issued) in
  (T <= T' < T + 24 * 3600 ->
   verify_jwt_token (generate_jwt_token T uid) T' = Some uid)
  /\ (T + 24 * 3600 <= T' ->
      jwt_decode (generate_jwt_token T uid) JWT_SECRET T' = Raise ExpiredSignatureError /\
      verify_jwt_token (generate_jwt_token T uid) T' = None)
  /\ (forall token,
        jwt_split token = None ->
        jwt_decode token JWT_SECRET T' = Raise InvalidTokenError /\
        verify_jwt_token token T' = None)
  /\ (forall m g,
        g <> hmac_sha256 JWT_SECRET m ->
        jwt_decode (jwt_join m g) JWT_SECRET T' = Raise InvalidTokenError /\
        verify_jwt_token (jwt_join m g) T' = None)
  /\ generate_jwt_token T uid = altered issued
  /\ (forall m,
        hmac_sha256 JWT_SECRET m <> hmac_sha256 JWT_SECRET issued ->
        jwt_decode (altered m) JWT_SECRET T' = Raise InvalidTokenError /\
        verify_jwt_token (altered m) T' = None)
  /\ (collision_free JWT_SECRET ->
      forall m,
        m <> issued ->
        jwt_decode (altered m) JWT_SECRET T' = Raise InvalidTokenError /\
        verify_jwt_token (altered m) T' = None)
  /\ (forall token who,
        verify_jwt_token token T' = Some who ->
        exists m, jwt_split token = Some (m, hmac_sha256 JWT_SECRET m)).
Proof.
  intros issued altered.
  assert (forall token, jwt_unsign token JWT_SECRET = None ->
            jwt_decode token JWT_SECRET T' = Raise InvalidTokenError /\
            verify_jwt_token token T' = None) as Hunsigned.
  { intros token Hbad.
    pose proof (jwt_decode_unsigned token JWT_SECRET T' Hbad) as Hd.
    split; [exact Hd | exact (verify_jwt_token_raise _ _ _ Hd)]. }
  split; [|split; [|split; [|split; [|split; [|split; [|split]]]]]].
  - apply verify_jwt_token_issued.
  - intros Hexp.
    assert (jwt_decode (generate_jwt_token T uid) JWT_SECRET T'
            = Raise ExpiredSignatureError) as Hd.
    { rewrite jwt_decode_issued.
      destruct (Z.ltb_spec T' T); [lia|].
      destruct (Z.leb_spec (T + 24 * 3600) T'); [reflexivity | lia]. }
    split; [exact Hd | exact (verify_jwt_token_raise _ _ _ Hd)].
  - intros token Hbad. apply Hunsigned, jwt_unsign_malformed, Hbad.
  - intros m g Hg. apply Hunsigned, jwt_unsign_forged, Hg.
  - reflexivity.
  - intros m Hm. apply Hunsigned, jwt_unsign_forged. congruence.
  - intros Hfree m Hm. apply Hunsigned, jwt_unsign_forged.
    intros Heq. apply Hm. symmetry. exact (Hfree _ _ Heq).
  - intros token who Hv. unfold verify_jwt_token, jwt_decode in Hv.
    destruct (jwt_unsign token JWT_SECRET) as [p|] eqn:Hu; [|discriminate].
    apply jwt_unsign_signed in Hu as (m & Hs & _). eauto.
Qed.

(** *** The decorator *)

Lemma require_auth_cases env req st :
  (exists uid, authenticated env req uid /\
               forall f, require_auth f env req st = f uid env req st)
  \/ ((forall uid, ~ authenticated env req uid) /\
      ((forall f, require_auth f env req st =
                  denied "no_token" "Authentication required" env req st) \/
       (forall f, require_auth f env req st =
                  denied "invalid_token" "Invalid token" env req st))).
Proof.
  unfold require_auth, denied.
  destruct (authorization req) as [header|] eqn:Hh.
  - destruct (nonempty header) eqn:Hne; cbn [negb].
    + destruct (verify_jwt_token (bearer header) (utcnow env)) as [uid|] eqn:Hv.
      * destruct (nonempty uid) eqn:Hu.
        -- left. exists uid. split; [exists header; auto | reflexivity].
        -- right. split; [|right; reflexivity].
           intros uid' (h & Hh' & _ & Hv' & Hu'). congruence.
      * right. split; [|right; reflexivity].
        intros uid' (h & Hh' & _ & Hv' & _). congruence.
    + right. split; [|left; reflexivity].
      intros uid' (h & Hh' & Hne' & _). congruence.
  - right. split; [|left; reflexivity].
    intros uid' (h & Hh' & _). congruence.
Qed.

(** C7, as amended.  Whatever the protected handler [f]: a request with no
    (or an empty) Authorization header is answered 401 with one
    [unauthorized_access] event of reason [no_token] appended; a request
    whose token [jwt.decode] rejects, as expired or as invalid alike, is
    answered 401 with one [unauthorized_access] event of the single reason
    [invalid_token] appended; in both cases the answer is the same for every
    handler, so the handler does not run.  The handler runs, on the user id
    of the token, exactly when the request is authenticated. *)
Theorem require_auth_gate (f : string -> Handler) env req st :
  ((authorization req = None \/ authorization req = Some "") ->
   forall g, require_auth g env req st =
             denied "no_token" "Authentication required" env req st)
  /\ (forall header e,
        authorization req = Some header -> header <> "" ->
        jwt_decode (bearer header) JWT_SECRET (utcnow env) = Raise e ->
        forall g, require_auth g env req st =
                  denied "invalid_token" "Invalid token" env req st)
  /\ (forall uid, authenticated env req uid ->
        require_auth f env req st = f uid env req st)
  /\ ((forall uid, ~ authenticated env req uid) ->
      exists reason,
        (reason = "no_token" \/ reason = "invalid_token") /\
        forall g,
          status (fst (require_auth g env req st)) = 401 /\
          users_db (snd (require_auth g env req st)) = users_db st /\
          custom_protocols (snd (require_auth g env req st)) = custom_protocols st /\
          security_logs (snd (require_auth g env req st)) =
            (security_logs st ++
               [{| timestamp := utcnow env;
                   event_type := "unauthorized_access";
                   event_user_id := None;
                   details := [("reason", JStr reason)];
                   source_ip := remote_addr req |}])%list).
Proof.
  split; [|split; [|split]].
  - intros Hmissing g. unfold require_auth, denied.
    destruct Hmissing as [-> | ->]; reflexivity.
  - intros header e Hh Hne Hd g. unfold require_auth, denied.
    rewrite Hh. apply nonempty_true in Hne. rewrite Hne. cbn [negb].
    rewrite (verify_jwt_token_raise _ _ _ Hd). reflexivity.
  - intros uid. apply require_auth_pass.
  - intros Hno.
    destruct (require_auth_cases env req st) as [(uid & Hin & _) | [_ Hden]];
      [destruct (Hno uid Hin)|].
    destruct Hden as [Hden | Hden];
      [exists "no_token" | exists "invalid_token"];
      (split; [auto|]); intros g; rewrite (Hden g); repeat split; reflexivity.
Qed.

(** *** The encryption envelope *)

(** What [encrypt_data] answers on non-empty data: the ciphertext as text and,
    next to it, the key as text. *)
Lemma encrypt_data_ok uid env req st :
  nonempty (get req "data" "") = true ->
  exists ciphertext key_text,
    decode_utf8 (fernet_encrypt ENCRYPTION_KEY (urandom env) (utcnow env)
                   (encode_utf8 (get req "data" ""))) = Some ciphertext /\
    nonempty ciphertext = true /\
    decode_utf8 ENCRYPTION_KEY = Some key_text /\
    fst (encrypt_data uid env req st) =
      ok [("encrypted_data", JStr ciphertext);
          ("encryption_key", JStr key_text);
          ("status", JStr "success")].
Proof.
  intros Hne. unfold encrypt_data. rewrite Hne. cbn [negb].
  destruct (fernet_token_text ENCRYPTION_KEY (urandom env) (utcnow env)
              (encode_utf8 (get req "data" ""))) as (c & Hc & Hcne).
  destruct ENCRYPTION_KEY_text as [k Hk].
  exists c, k. rewrite Hc, Hk. auto.
Qed.

(** C1 on the code.  Every authenticated call to the encrypt route with
    non-empty data is answered 200 with a field [encryption_key] that holds
    the process-wide key itself (its text encodes back to [ENCRYPTION_KEY]):
    the encrypt response does carry the key. *)
Theorem route_encrypt_returns_key uid env req st :
  authenticated env req uid ->
  nonempty (get req "data" "") = true ->
  let r := fst (route_encrypt env req st) in
  exists key_text,
    encode_utf8 key_text = ENCRYPTION_KEY /\
    status r = 200 /\
    field "encryption_key" (body r) = Some (JStr key_text) /\
    mentions key_text (body r) = true.
Proof.
  intros Hauth Hne r. subst r. unfold route_encrypt.
  rewrite (require_auth_pass _ _ _ _ _ Hauth).
  destruct (encrypt_data_ok uid env req st Hne) as (c & k & _ & _ & Hk & ->).
  exists k. split; [exact (encode_decode _ _ Hk)|].
  split; [reflexivity|]. split; [reflexivity|].
  simpl. rewrite String.eqb_refl. apply orb_true_iff. right. reflexivity.
Qed.

(** C5, as amended.  [encrypt_data] turns empty data away with a 400.  For
    every non-empty text [p] it answers 200 with a ciphertext, and
    [decrypt_data] on that ciphertext (any caller, any later moment, same
    process key) answers 200 with exactly [p]. *)
Theorem encrypt_decrypt_roundtrip uid env req st uid' env' req' st' :
  let p := get req "data" "" in
  let r := fst (encrypt_data uid env req st) in
  (p = "" -> r = error 400 "Data to encrypt is required")
  /\ (p <> "" ->
      exists c,
        status r = 200 /\ field "encrypted_data" (body r) = Some (JStr c) /\
        (get req' "data" "" = c ->
         fst (decrypt_data uid' env' req' st') =
           ok [("decrypted_data", JStr p); ("status", JStr "success")])).
Proof.
  intros p r. subst r. split.
  - intros Hp. unfold encrypt_data. fold p. rewrite Hp. reflexivity.
  - intros Hp. apply nonempty_true in Hp.
    destruct (encrypt_data_ok uid env req st Hp) as (c & k & Hc & Hcne & _ & ->).
    exists c. split; [reflexivity|]. split; [reflexivity|].
    intros Hdata. unfold decrypt_data. rewrite Hdata, Hcne. cbn [negb].
    rewrite (encode_decode _ _ Hc), fernet_decrypt_encrypt, decode_encode.
    reflexivity.
Qed.

(** *** The protocol registry *)

Lemma create_custom_protocol_stores uid env req st :
  get req "name" "" <> "" ->
  custom_protocols (snd (create_custom_protocol uid env req st)) =
  <[make_protocol_id uid (get req "name" "") := protocol_of uid env req]>
    (custom_protocols st).
Proof.
  intros Hname. unfold create_custom_protocol.
  apply nonempty_true in Hname. rewrite Hname. reflexivity.
Qed.

Lemma create_custom_protocol_status uid env req st :
  get req "name" "" <> "" ->
  status (fst (create_custom_protocol uid env req st)) = 200 /\
  field "protocol_id" (body (fst (create_custom_protocol uid env req st))) =
    Some (JStr (make_protocol_id uid (get req "name" ""))).
Proof.
  intros Hname. unfold create_custom_protocol.
  apply nonempty_true in Hname. rewrite Hname. split; reflexivity.
Qed.

Lemma apply_custom_protocol_forbidden uid pid env req st p :
  custom_protocols st !! pid = Some p -> protocol_user_id p <> uid ->
  apply_custom_protocol uid pid env req st = (error 403 "Access denied", st).
Proof.
  intros Hp Hne. unfold apply_custom_protocol. rewrite Hp.
  apply String.eqb_neq in Hne. rewrite Hne. reflexivity.
Qed.

(** C2, as amended.  For every owner and non-empty protocol name, create
    succeeds (200, never a conflict) whether or not a protocol is already
    stored under the id of that owner and name: the record built from this
    request is what the registry holds under the id afterwards, in place of
    any earlier one, and every other id keeps its record. *)
Theorem create_custom_protocol_replaces uid env req st :
  get req "name" "" <> "" ->
  let pid := make_protocol_id uid (get req "name" "") in
  let r := fst (create_custom_protocol uid env req st) in
  let st' := snd (create_custom_protocol uid env req st) in
  status r = 200 /\
  field "protocol_id" (body r) = Some (JStr pid) /\
  custom_protocols st' !! pid = Some (protocol_of uid env req) /\
  protocol_user_id (protocol_of uid env req) = uid /\
  (forall other, other <> pid ->
     custom_protocols st' !! other = custom_protocols st !! other).
Proof.
  intros Hname pid r st'. subst r st'.
  rewrite (create_custom_protocol_stores _ _ _ _ Hname). fold pid.
  destruct (create_custom_protocol_status uid env req st Hname) as [Hs Hf].
  split; [exact Hs|]. split; [exact Hf|].
  split; [apply lookup_insert_eq|]. split; [reflexivity|].
  intros other Hother. apply lookup_insert_ne. congruence.
Qed.

(** C6, as amended.  Apply fails 404 when no protocol has the id; fails 403
    whenever the caller is not the owner recorded on the protocol, whatever
    the record's [bypass_security] flag (and whatever the data); when the
    caller is the owner it succeeds on non-empty data and fails 400 on empty
    data.  Every failure leaves the state as it was. *)
Theorem apply_custom_protocol_ownership uid pid env req st :
  let r := apply_custom_protocol uid pid env req st in
  (custom_protocols st !! pid = None -> r = (error 404 "Protocol not found", st))
  /\ (forall p, custom_protocols st !! pid = Some p -> protocol_user_id p <> uid ->
        r = (error 403 "Access denied", st))
  /\ (forall p, custom_protocols st !! pid = Some p -> protocol_user_id p = uid ->
        get req "data" "" <> "" ->
        status (fst r) = 200 /\
        field "protocol_id" (body (fst r)) = Some (JStr pid) /\
        field "protocol_details" (body (fst r)) = Some (protocol_json p))
  /\ (forall p, custom_protocols st !! pid = Some p -> protocol_user_id p = uid ->
        get req "data" "" = "" ->
        r = (error 400 "Data to secure is required", st)).
Proof.
  intros r. subst r. unfold apply_custom_protocol.
  split; [intros ->; reflexivity|].
  split; [|split].
  - intros p Hp Hne. fold (apply_custom_protocol uid pid env req st).
    exact (apply_custom_protocol_forbidden _ _ _ _ _ _ Hp Hne).
  - intros p -> <- Hdata. rewrite String.eqb_refl. cbn [negb].
    apply nonempty_true in Hdata. rewrite Hdata. cbn [negb fst].
    repeat split; reflexivity.
  - intros p -> <- Hdata. rewrite String.eqb_refl, Hdata. reflexivity.
Qed.

(** C10.  Owner "a" with name "b c" and owner "a_b" with name "c" are
    different owners and names with one protocol id, "a_b_c".  When the first
    creates and then the second, the id holds the second owner's record, and
    the first owner's apply on that id fails 403. *)
Theorem protocol_id_collision env1 env2 env3 req1 req2 req3 st :
  get req1 "name" "" = "b c" ->
  get req2 "name" "" = "c" ->
  let st1 := snd (create_custom_protocol "a" env1 req1 st) in
  let st2 := snd (create_custom_protocol "a_b" env2 req2 st1) in
  make_protocol_id "a" "b c" = "a_b_c" /\
  make_protocol_id "a_b" "c" = "a_b_c" /\
  protocol_user_id <$> custom_protocols st1 !! "a_b_c" = Some "a" /\
  protocol_user_id <$> custom_protocols st2 !! "a_b_c" = Some "a_b" /\
  apply_custom_protocol "a" "a_b_c" env3 req3 st2 = (error 403 "Access denied", st2).
Proof.
  intros Hn1 Hn2 st1 st2.
  assert (make_protocol_id "a" "b c" = "a_b_c") as Hid1 by reflexivity.
  assert (make_protocol_id "a_b" "c" = "a_b_c") as Hid2 by reflexivity.
  assert ("b c" <> "") as Hne1 by discriminate.
  assert ("c" <> "") as Hne2 by discriminate.
  rewrite <- Hn1 in Hne1. rewrite <- Hn2 in Hne2.
  assert (custom_protocols st1 !! "a_b_c" = Some (protocol_of "a" env1 req1)) as H1.
  { subst st1. rewrite (create_custom_protocol_stores _ _ _ _ Hne1), Hn1, Hid1.
    apply lookup_insert_eq. }
  assert (custom_protocols st2 !! "a_b_c" = Some (protocol_of "a_b" env2 req2)) as H2.
  { subst st2. rewrite (create_custom_protocol_stores _ _ _ _ Hne2), Hn2, Hid2.
    apply lookup_insert_eq. }
  split; [exact Hid1|]. split; [exact Hid2|].
  split; [rewrite H1; reflexivity|]. split; [rewrite H2; reflexivity|].
  apply (apply_custom_protocol_forbidden _ _ _ _ _ _ H2). simpl. discriminate.
Qed.

(** *** The audit log *)

Lemma filter_all {A} (P : A -> Prop) `{!forall x, Decision (P x)} (l : list A) :
  Forall P l -> filter P l = l.
Proof.
  induction 1 as [|x l Hx _ IH]; [reflexivity|].
  rewrite filter_cons_True by assumption. f_equal. exact IH.
Qed.

Lemma filter_sublist_mono {A} (P : A -> Prop) `{!forall x, Decision (P x)} (l k : list A) :
  l `sublist_of` k -> filter P l `sublist_of` filter P k.
Proof.
  induction 1 as [|x l k _ IH|x l k _ IH].
  - constructor.
  - rewrite !filter_cons. destruct (decide (P x)); [constructor|]; exact IH.
  - rewrite (filter_cons _ x k). destruct (decide (P x)); [constructor|]; exact IH.
Qed.

Lemma user_logs_append uid logs e :
  user_logs uid (logs ++ [e]) =
  (user_logs uid logs ++ if decide (event_user_id e = Some uid) then [e] else [])%list.
Proof.
  unfold user_logs. rewrite filter_app. f_equal.
Qed.

(** C9.  [get_security_logs] answers with exactly the events of the log
    whose user id is the given one, in the order they were appended, and
    returns the state it was given.  "Exactly" and "in order": the answer
    holds an event iff the log holds it with that user id, it is a
    subsequence of the log, and it is the greatest one made of such events;
    an event appended later comes last in later answers.  An authenticated
    call to the route is that read and nothing else. *)
Theorem get_security_logs_reads uid env req st :
  let r := get_security_logs uid env req st in
  let logs := user_logs uid (security_logs st) in
  snd r = st /\
  status (fst r) = 200 /\
  field "security_logs" (body (fst r)) = Some (JList (event_json <$> logs)) /\
  (forall e, e ∈ logs <-> e ∈ security_logs st /\ event_user_id e = Some uid) /\
  logs `sublist_of` security_logs st /\
  (forall l, l `sublist_of` security_logs st ->
             Forall (fun e => event_user_id e = Some uid) l ->
             l `sublist_of` logs) /\
  (forall kind user info env' req',
     user_logs uid (security_logs (log_security_event kind user info env' req' st)) =
     (logs ++ if decide (user = Some uid)
              then [{| timestamp := utcnow env'; event_type := kind;
                       event_user_id := user; details := info;
                       source_ip := remote_addr req' |}]
              else [])%list) /\
  (authenticated env req uid -> route_security_logs env req st = r).
Proof.
  intros r logs. subst r logs.
  split; [reflexivity|]. split; [reflexivity|]. split; [reflexivity|].
  split; [|split; [|split; [|split]]]; [| | | |apply require_auth_pass].
  - intros e. unfold user_logs. rewrite list_elem_of_filter. tauto.
  - apply sublist_filter.
  - intros l Hsub Hall. unfold user_logs.
    rewrite <- (filter_all _ l Hall). apply filter_sublist_mono. exact Hsub.
  - intros kind user info env' req'.
    rewrite log_security_event_logs. apply user_logs_append.
Qed.

(** *** Registration, one call after another *)

(** Once a name is in the user table, registering it again is a conflict that
    changes nothing. *)
Lemma register_conflict env req st user :
  nonempty (get req "username" "") = true ->
  nonempty (get req "password" "") = true ->
  nonempty (get req "email" "") = true ->
  users_db st !! get req "username" "" = Some user ->
  register env req st = (error 409 "Username already exists", st).
Proof.
  intros Hn Hp He Hu. unfold register. rewrite Hn, Hp, He, Hu. reflexivity.
Qed.

(** What the second half of [register] does when [hashpw] returns. *)
Lemma register_commit_ok env req st hashed :
  hashpw (encode_utf8 (get req "password" "")) (gensalt env) = Return hashed ->
  register_commit env req st =
    (registered (get req "username" ""),
     log_security_event "login_success" (Some (get req "username" ""))
       [("action", JStr "registration")] env req
       {| users_db := <[get req "username" "" := user_of env req hashed]> (users_db st);
          security_logs := security_logs st;
          custom_protocols := custom_protocols st |}).
Proof. intros Hh. unfold register_commit. rewrite Hh. reflexivity. Qed.

(** [register] is its checks and then, if they pass, its second half. *)
Lemma register_split env req st :
  register env req st =
  match register_check req st with
  | Some r => (r, st)
  | None => register_commit env req st
  end.
Proof.
  unfold register, register_check, register_commit.
  repeat case_match; simplify_eq; reflexivity.
Qed.

Lemma register_check_free req st :
  nonempty (get req "username" "") = true ->
  nonempty (get req "password" "") = true ->
  nonempty (get req "email" "") = true ->
  users_db st !! get req "username" "" = None ->
  register_check req st = None.
Proof.
  intros Hn Hp He Hu. unfold register_check. rewrite Hn, Hp, He, Hu. reflexivity.
Qed.

(** Registering a name that is free, with a password [hashpw] takes, succeeds
    and puts the record in the table. *)
Lemma register_fresh env req st hashed :
  nonempty (get req "username" "") = true ->
  nonempty (get req "password" "") = true ->
  nonempty (get req "email" "") = true ->
  users_db st !! get req "username" "" = None ->
  hashpw (encode_utf8 (get req "password" "")) (gensalt env) = Return hashed ->
  fst (register env req st) = registered (get req "username" "") /\
  users_db (snd (register env req st)) !! get req "username" "" =
    Some (user_of env req hashed).
Proof.
  intros Hn Hp He Hu Hh.
  rewrite register_split, (register_check_free req st Hn Hp He Hu).
  rewrite (register_commit_ok env req st hashed Hh). cbn [fst snd].
  split; [reflexivity|].
  rewrite log_security_event_users. cbn [users_db]. apply lookup_insert_eq.
Qed.

(** The same name registered again and again, once it is in the table. *)
Lemma serve_register_taken (calls : list (Env * Request)) (st : State) (name : string) :
  Forall (fun call =>
            get call.2 "username" "" = name /\
            nonempty (get call.2 "password" "") = true /\
            nonempty (get call.2 "email" "") = true) calls ->
  nonempty name = true ->
  is_Some (users_db st !! name) ->
  serve register calls st =
    (replicate (length calls) (error 409 "Username already exists"), st).
Proof.
  intros Hcalls Hname [user Huser].
  induction Hcalls as [|[env req] calls (Hn & Hp & He) _ IH]; [reflexivity|].
  cbn [snd] in Hn, Hp, He. cbn [serve].
  rewrite (register_conflict env req st user); try assumption;
    [| rewrite Hn; assumption | rewrite Hn; assumption].
  rewrite IH. reflexivity.
Qed.

(** Calls that register one name, free at the start, served in turn: the first
    whose password [hashpw] takes succeeds, and all after it are conflicts. *)
Lemma serve_register_same_name first rest st name hashed :
  Forall (fun call =>
            get call.2 "username" "" = name /\
            nonempty (get call.2 "password" "") = true /\
            nonempty (get call.2 "email" "") = true) (first :: rest) ->
  nonempty name = true ->
  users_db st !! name = None ->
  hashpw (encode_utf8 (get first.2 "password" "")) (gensalt first.1) = Return hashed ->
  serve register (first :: rest) st =
    (registered name :: replicate (length rest) (error 409 "Username already exists"),
     snd (register first.1 first.2 st))
  /\ users_db (snd (register first.1 first.2 st)) !! name =
       Some (user_of first.1 first.2 hashed).
Proof.
  intros Hcalls Hname Hfree Hh.
  apply Forall_cons in Hcalls as [(Hn & Hp & He) Hrest].
  destruct first as [env req]. cbn [fst snd] in *. cbn [serve].
  rewrite <- Hn in Hname, Hfree.
  destruct (register_fresh env req st hashed Hname Hp He Hfree Hh) as [Hok Huser].
  destruct (register env req st) as [r st1] eqn:Hreg. cbn [fst snd] in Hok, Huser.
  rewrite Hn in Huser, Hname, Hok.
  rewrite (serve_register_taken rest st1 name Hrest Hname (mk_is_Some _ _ Huser)).
  subst r. split; [reflexivity | exact Huser].
Qed.

(** However many of the passwords [hashpw] takes, calls that register one
    name, served in turn, do not succeed twice. *)
Lemma serve_register_once (calls : list (Env * Request)) (st : State) (name : string) :
  Forall (fun call =>
            get call.2 "username" "" = name /\
            nonempty (get call.2 "password" "") = true /\
            nonempty (get call.2 "email" "") = true) calls ->
  nonempty name = true ->
  (length (filter (fun r => (status r = 200)%Z) (fst (serve register calls st))) <= 1)%nat.
Proof.
  intros Hcalls Hname. revert st.
  induction Hcalls as [|[env req] calls (Hn & Hp & He) Hrest IH]; intros st;
    [cbn; lia|].
  cbn [snd] in Hn, Hp, He.
  destruct (users_db st !! name) as [user|] eqn:Hu.
  - rewrite (serve_register_taken ((env, req) :: calls) st name); auto.
    cbn [fst]. generalize (length ((env, req) :: calls)). intros n.
    induction n as [|n IHn]; [cbn; lia|].
    cbn [replicate]. rewrite filter_cons_False; [exact IHn | cbn; lia].
  - destruct (hashpw (encode_utf8 (get req "password" "")) (gensalt env))
      as [hashed|e] eqn:Hh.
    + destruct (serve_register_same_name (env, req) calls st name hashed)
        as [-> _]; auto.
      cbn [fst]. rewrite filter_cons_True by reflexivity. cbn [length].
      generalize (length calls). intros n.
      induction n as [|n IHn]; [cbn; lia|].
      cbn [replicate]. rewrite filter_cons_False; [exact IHn | cbn; lia].
    + cbn [serve]. rewrite register_split, register_check_free; try congruence.
      unfold register_commit. rewrite Hh.
      specialize (IH st). destruct (serve register calls st) as [rs st2].
      cbn [fst] in *. rewrite filter_cons_False; [exact IH | cbn; lia].
Qed.

(** X1.  Spec section 8, first property, for any number of calls in turn: of
    the calls that register one and the same name, free at the start, each
    with a password and an email, the first succeeds, when [hashpw] takes its
    password, and every later one is a conflict; the table holds the record
    of the first.  Whether [hashpw] takes the passwords or raises, no two of
    the calls succeed. *)
Theorem register_same_name_in_turn (calls : list (Env * Request)) (st : State)
    (name : string) :
  Forall (fun call =>
            get call.2 "username" "" = name /\
            nonempty (get call.2 "password" "") = true /\
            nonempty (get call.2 "email" "") = true) calls ->
  nonempty name = true ->
  users_db st !! name = None ->
  (length (filter (fun r => (status r = 200)%Z) (fst (serve register calls st))) <= 1)%nat
  /\ forall first rest hashed,
       calls = first :: rest ->
       hashpw (encode_utf8 (get first.2 "password" "")) (gensalt first.1) = Return hashed ->
       status <$> fst (serve register calls st) = 200 :: replicate (length calls - 1)%nat 409
       /\ snd (serve register calls st) = snd (register first.1 first.2 st)
       /\ users_db (snd (serve register calls st)) !! name =
            Some (user_of first.1 first.2 hashed).
Proof.
  intros Hcalls Hname Hfree.
  split; [exact (serve_register_once calls st name Hcalls Hname)|].
  intros first rest hashed -> Hh.
  destruct (serve_register_same_name first rest st name hashed Hcalls Hname Hfree Hh)
    as [-> Huser].
  cbn [fst snd length]. rewrite fmap_cons, fmap_replicate.
  split; [f_equal; f_equal; lia|]. split; [reflexivity | exact Huser].
Qed.

(** X2.  Spec section 8, second property: after [register(u, p, e)] of a free
    name with a password [hashpw] takes, [login(u, p)] succeeds with a token
    that verifies to [u] throughout the following 24 hours. *)
Theorem register_then_login env req st env' req' hashed :
  nonempty (get req "username" "") = true ->
  nonempty (get req "password" "") = true ->
  nonempty (get req "email" "") = true ->
  users_db st !! get req "username" "" = None ->
  hashpw (encode_utf8 (get req "password" "")) (gensalt env) = Return hashed ->
  get req' "username" "" = get req "username" "" ->
  get req' "password" "" = get req "password" "" ->
  let r := fst (login env' req' (snd (register env req st))) in
  exists token,
    status r = 200 /\ field "token" (body r) = Some (JStr token) /\
    forall T', utcnow env' <= T' < utcnow env' + 24 * 3600 ->
               verify_jwt_token token T' = Some (get req "username" "").
Proof.
  intros Hn Hp He Hfree Hh Hn' Hp' r. subst r.
  exists (generate_jwt_token (utcnow env') (get req "username" "")).
  destruct (register_fresh env req st hashed Hn Hp He Hfree Hh) as [_ Huser].
  unfold login. rewrite Hn', Hp', Hn, Hp. cbn [negb orb].
  rewrite authenticate_user_log.
  assert (authenticate_user (snd (register env req st)) (get req "username" "")
            (get req "password" "") = Return (Some (user_of env req hashed))) as ->.
  { apply authenticate_user_Some. split; [exact Huser|].
    exact (checkpw_hashpw _ _ _ Hh). }
  cbn [user_of is_active negb fst].
  split; [reflexivity|]. split; [reflexivity|].
  intros T'. apply verify_jwt_token_issued.
Qed.

(** *** Registration, calls that interleave *)






End Facts.

(** ** What every route keeps *)

Section Invariants.
Context {py : Python} {bc : Bcrypt} {jw : PyJWT} {fe : Fernet} {su : Startup}.

Local Tactic Notation "handler_cases" reference(h) :=
  unfold keeps, h; intros; repeat case_match; cbn [fst snd].

(** The decorator keeps what its handler and the audit log keep. *)
Lemma require_auth_keeps (R : State -> State -> Prop) (f : string -> Handler) :
  (forall kind user info env req st, R st (log_security_event kind user info env req st)) ->
  (forall uid, uid <> "" -> keeps R (f uid)) ->
  keeps R (require_auth f).
Proof.
  intros Hlog Hf env req st.
  destruct (require_auth_cases env req st) as [(uid & Hauth & Hrun) | [_ [Hden | Hden]]].
  - rewrite Hrun. apply Hf.
    destruct Hauth as (_ & _ & _ & _ & Hne). apply nonempty_true. exact Hne.
  - rewrite Hden. apply Hlog.
  - rewrite Hden. apply Hlog.
Qed.

Lemma extends_refl st : extends st st.
Proof. split; [reflexivity | auto]. Qed.

Lemma extends_trans st1 st2 st3 : extends st1 st2 -> extends st2 st3 -> extends st1 st3.
Proof.
  intros [Hl1 Hu1] [Hl2 Hu2]. split; [etransitivity; eassumption | auto].
Qed.

Lemma extends_log kind user info env req st :
  extends st (log_security_event kind user info env req st).
Proof.
  split; [|auto]. rewrite log_security_event_logs. apply prefix_app_r. reflexivity.
Qed.

Lemma register_extends : keeps extends register.
Proof.
  handler_cases register; try apply extends_refl.
  eapply extends_trans; [|apply extends_log].
  split; [reflexivity|]. cbn [users_db]. intros k u Hk.
  rewrite lookup_insert_ne; [exact Hk | congruence].
Qed.

Lemma login_extends : keeps extends login.
Proof.
  handler_cases login; try apply extends_refl; try apply extends_log;
    (eapply extends_trans; [apply extends_log|apply extends_log]).
Qed.

Lemma encrypt_data_extends uid : keeps extends (encrypt_data uid).
Proof. handler_cases encrypt_data; try apply extends_refl; apply extends_log. Qed.

Lemma decrypt_data_extends uid : keeps extends (decrypt_data uid).
Proof. handler_cases decrypt_data; try apply extends_refl; apply extends_log. Qed.

Lemma create_custom_protocol_extends uid : keeps extends (create_custom_protocol uid).
Proof.
  handler_cases create_custom_protocol; try apply extends_refl.
  eapply extends_trans; [|apply extends_log]. split; [reflexivity | auto].
Qed.

Lemma apply_custom_protocol_extends uid pid : keeps extends (apply_custom_protocol uid pid).
Proof. handler_cases apply_custom_protocol; try apply extends_refl; apply extends_log. Qed.

Lemma dispatch_extends route : keeps extends (dispatch route).
Proof.
  destruct route; cbn [dispatch].
  - intros env req st. apply extends_refl.
  - apply register_extends.
  - apply login_extends.
  - apply require_auth_keeps; [apply extends_log | intros; apply encrypt_data_extends].
  - apply require_auth_keeps; [apply extends_log | intros; apply decrypt_data_extends].
  - apply require_auth_keeps; [apply extends_log | intros; apply create_custom_protocol_extends].
  - apply require_auth_keeps; [apply extends_log | intros; apply apply_custom_protocol_extends].
  - apply require_auth_keeps; [apply extends_log | intros uid _ env req st; apply extends_refl].
  - apply require_auth_keeps; [apply extends_log | intros uid _ env req st; apply extends_refl].
Qed.

Lemma run_cons route env req rest st :
  run ((route, env, req) :: rest) st =
  (fst (dispatch route env req st) :: fst (run rest (snd (dispatch route env req st))),
   snd (run rest (snd (dispatch route env req st)))).
Proof.
  cbn [run]. destruct (dispatch route env req st) as [r st1]. cbn [fst snd].
  destruct (run rest st1) as [rs st2]. reflexivity.
Qed.

Lemma run_extends calls st : extends st (snd (run calls st)).
Proof.
  revert st. induction calls as [|[[route env] req] rest IH]; intros st.
  - apply extends_refl.
  - rewrite run_cons. cbn [snd].
    eapply extends_trans; [apply dispatch_extends | apply IH].
Qed.

(** X3.  The audit log is append-only: whatever requests the service has
    served, on whatever routes, the log it had before is the beginning of the
    log it has after; no event is removed, altered or moved. *)
Theorem security_logs_append_only (calls : list (Route * Env * Request)) (st : State) :
  security_logs st `prefix_of` security_logs (snd (run calls st))
  /\ forall i e, security_logs st !! i = Some e ->
                 security_logs (snd (run calls st)) !! i = Some e.
Proof.
  destruct (run_extends calls st) as [Hprefix _].
  split; [exact Hprefix|].
  intros i e Hi. destruct Hprefix as [more ->]. apply lookup_app_l_Some. exact Hi.
Qed.

Lemma register_users env req st k :
  users_db (snd (register env req st)) !! k =
  if decide (k = get req "username" "" /\ status (fst (register env req st)) = 200)
  then match hashpw (encode_utf8 (get req "password" "")) (gensalt env) with
       | Return hashed => Some (user_of env req hashed)
       | Raise _ => None
       end
  else users_db st !! k.
Proof.
  unfold register. repeat case_match; cbn [fst snd status error ok] in *;
    try (destruct_and?; discriminate); try reflexivity; simplify_eq.
  - destruct_and?. subst k. rewrite log_security_event_users. cbn [users_db].
    apply lookup_insert_eq.
  - rewrite log_security_event_users. cbn [users_db].
    apply lookup_insert_ne. intros Heq.
    match goal with H : ~ _ |- _ => apply H end.
    split; [symmetry; exact Heq | reflexivity].
Qed.

Lemma dispatch_same_users route :
  route <> Register -> keeps same_users (dispatch route).
Proof.
  intros Hroute. destruct route; cbn [dispatch]; try congruence;
    try (apply require_auth_keeps; [reflexivity | intros uid _]).
  - intros env req st. reflexivity.
  - handler_cases login; reflexivity.
  - handler_cases encrypt_data; reflexivity.
  - handler_cases decrypt_data; reflexivity.
  - handler_cases create_custom_protocol; reflexivity.
  - handler_cases apply_custom_protocol; reflexivity.
  - intros env req st. reflexivity.
  - intros env req st. reflexivity.
Qed.


Lemma dispatch_same_protocols route :
  route <> CreateProtocol -> keeps same_protocols (dispatch route).
Proof.
  intros Hroute. destruct route; cbn [dispatch]; try congruence;
    try (apply require_auth_keeps; [reflexivity | intros uid _]).
  - intros env req st. reflexivity.
  - handler_cases register; reflexivity.
  - handler_cases login; reflexivity.
  - handler_cases encrypt_data; reflexivity.
  - handler_cases decrypt_data; reflexivity.
  - handler_cases apply_custom_protocol; reflexivity.
  - intros env req st. reflexivity.
  - intros env req st. reflexivity.
Qed.

Lemma create_custom_protocol_protocols uid env req st :
  custom_protocols (snd (create_custom_protocol uid env req st)) =
  if nonempty (get req "name" "")
  then <[make_protocol_id uid (get req "name" "") := protocol_of uid env req]>
         (custom_protocols st)
  else custom_protocols st.
Proof.
  unfold create_custom_protocol. destruct (nonempty (get req "name" "")); reflexivity.
Qed.

(** X5.  The protocol registry changes only through create-protocol: every
    other route leaves it as it was, and so does a create-protocol request
    that is not authenticated; an authenticated one changes at most the
    record under the id of the caller and the name given. *)
Theorem custom_protocols_change_only_by_create (route : Route) (env : Env)
    (req : Request) (st : State) :
  (route <> CreateProtocol ->
   custom_protocols (snd (dispatch route env req st)) = custom_protocols st)
  /\ ((forall uid, ~ authenticated env req uid) ->
      custom_protocols (snd (dispatch CreateProtocol env req st)) = custom_protocols st)
  /\ (forall uid k, authenticated env req uid ->
        k <> make_protocol_id uid (get req "name" "") ->
        custom_protocols (snd (dispatch CreateProtocol env req st)) !! k =
        custom_protocols st !! k).
Proof.
  split; [|split].
  - intros Hroute. exact (dispatch_same_protocols route Hroute env req st).
  - intros Hno. cbn [dispatch]. unfold route_create_protocol.
    destruct (require_auth_cases env req st) as [(uid & Hauth & _) | [_ [Hden | Hden]]];
      [destruct (Hno uid Hauth) | |]; rewrite Hden; reflexivity.
  - intros uid k Hauth Hk. cbn [dispatch]. unfold route_create_protocol.
    rewrite (require_auth_pass _ _ _ _ _ Hauth), create_custom_protocol_protocols.
    destruct (nonempty (get req "name" "")); [|reflexivity].
    apply lookup_insert_ne. congruence.
Qed.

Lemma well_formed_tables st st' :
  users_db st' = users_db st -> custom_protocols st' = custom_protocols st ->
  well_formed st -> well_formed st'.
Proof. unfold well_formed. intros -> ->. auto. Qed.

Lemma well_formed_log kind user info env req st :
  stays_well_formed st (log_security_event kind user info env req st).
Proof. unfold stays_well_formed. apply well_formed_tables; reflexivity. Qed.

Lemma register_well_formed : keeps stays_well_formed register.
Proof.
  intros env req st [Husers Hprotocols]. split.
  - intros k u. rewrite register_users. case_decide as Hk; [|apply Husers].
    destruct Hk as [-> Hok].
    destruct (hashpw (encode_utf8 (get req "password" "")) (gensalt env));
      [|discriminate].
    intros [= <-]. cbn [user_of username is_active].
    split; [reflexivity|]. split; [|reflexivity].
    intros Hempty. revert Hok. unfold register. rewrite Hempty. discriminate.
  - pose proof (dispatch_same_protocols Register ltac:(discriminate) env req st) as Hsame.
    unfold same_protocols in Hsame. cbn [dispatch] in Hsame. rewrite Hsame.
    exact Hprotocols.
Qed.

Lemma create_custom_protocol_well_formed uid :
  uid <> "" -> keeps stays_well_formed (create_custom_protocol uid).
Proof.
  intros Huid env req st [Husers Hprotocols]. split.
  - assert (users_db (snd (create_custom_protocol uid env req st)) = users_db st) as ->;
      [|exact Husers].
    unfold create_custom_protocol. repeat case_match; reflexivity.
  - intros k p. rewrite create_custom_protocol_protocols.
    destruct (nonempty (get req "name" "")) eqn:Hname; [|apply Hprotocols].
    rewrite lookup_insert. case_decide as Hk; [|apply Hprotocols].
    intros [= <-]. cbn [protocol_of protocol_id protocol_user_id protocol_name].
    apply nonempty_true in Hname. auto.
Qed.

Lemma dispatch_well_formed route : keeps stays_well_formed (dispatch route).
Proof.
  assert (route = Register \/ route = CreateProtocol \/
          (route <> Register /\ route <> CreateProtocol))
    as [-> | [-> | [Hreg Hcreate]]]
    by (destruct route; auto; right; right; split; discriminate).
  - apply register_well_formed.
  - apply require_auth_keeps; [apply well_formed_log|].
    apply create_custom_protocol_well_formed.
  - intros env req st. unfold stays_well_formed. apply well_formed_tables.
    + exact (dispatch_same_users route Hreg env req st).
    + exact (dispatch_same_protocols route Hcreate env req st).
Qed.

Lemma run_well_formed calls st : well_formed st -> well_formed (snd (run calls st)).
Proof.
  revert st. induction calls as [|[[route env] req] rest IH]; intros st Hst; [exact Hst|].
  rewrite run_cons. cbn [snd]. apply IH. apply dispatch_well_formed. exact Hst.
Qed.

Lemma loaded_well_formed : well_formed loaded.
Proof.
  split; intros k x; cbn [loaded users_db custom_protocols];
    rewrite lookup_empty; discriminate.
Qed.

Lemma main_well_formed env st0 : main env = Return st0 -> well_formed st0.
Proof.
  unfold main. destruct (hashpw (encode_utf8 "admin123") (gensalt env)); [|discriminate].
  intros [= <-].
  split; intros k x; cbn [loaded users_db custom_protocols].
  - rewrite lookup_insert. case_decide as Hk; [|rewrite lookup_empty; discriminate].
    intros [= <-]. subst k. cbn [username is_active]. repeat split. discriminate.
  - rewrite lookup_empty. discriminate.
Qed.

(** X6.  The tables stay well formed.  In the storage of a process that has
    just loaded the module, or run the [__main__] block to its end (which it
    does when [hashpw] takes the admin password), and after any requests on
    any routes from a well-formed storage: every user is filed
    under the non-empty username of the record and is active, and every
    protocol is filed under the id of the record, which is the id of its
    non-empty owner and non-empty name. *)
Theorem well_formed_invariant (calls : list (Route * Env * Request)) (st : State) :
  well_formed loaded
  /\ (forall env st0, main env = Return st0 -> well_formed st0)
  /\ (forall env hashed,
        hashpw (encode_utf8 "admin123") (gensalt env) = Return hashed ->
        exists st0, main env = Return st0)
  /\ (well_formed st -> well_formed (snd (run calls st))).
Proof.
  split; [apply loaded_well_formed|]. split; [apply main_well_formed|].
  split; [|apply run_well_formed].
  intros env hashed Hh. unfold main. rewrite Hh. eauto.
Qed.

Lemma login_not_disabled env req st :
  well_formed st -> status (fst (login env req st)) <> 403.
Proof.
  intros [Husers _]. unfold login. repeat case_match; cbn [fst status error ok];
    try discriminate.
  exfalso.
  match goal with H : authenticate_user _ _ _ = Return (Some ?u) |- _ =>
    rewrite authenticate_user_log in H; apply authenticate_user_Some in H as [Hu _];
    destruct (Husers _ _ Hu) as (_ & _ & Hactive) end.
  match goal with H : negb (is_active _) = true |- _ =>
    rewrite Hactive in H; discriminate H end.
Qed.

(** X7.  No account is ever disabled: in a process started either way, after
    any requests on any routes, no login is answered 403 "Account disabled"
    (nothing in the service sets [is_active] to false). *)
Theorem login_never_disabled (calls : list (Route * Env * Request)) (start : State)
    (env : Env) (req : Request) :
  start = loaded \/ (exists env0, main env0 = Return start) ->
  status (fst (login env req (snd (run calls start)))) <> 403.
Proof.
  intros Hstart. apply login_not_disabled, run_well_formed.
  destruct Hstart as [-> | [env0 Hmain]];
    [apply loaded_well_formed | exact (main_well_formed env0 start Hmain)].
Qed.

End Invariants.

(** ** More on the handlers *)

Section Behaviour.
Context {py : Python} {bc : Bcrypt} {jw : PyJWT} {fe : Fernet} {su : Startup}.

(** X8.  The audit trail of a login.  A login that lacks a field is answered
    400 and logs nothing.  Every other login first appends a [login_attempt]
    under the username the request gives, whether or not such a user exists.
    When [checkpw] returns (or is not called, the user being absent) a second
    event follows under the same username: [login_success] on a 200, or
    [login_failure] with reason [invalid_credentials] on a 401 or
    [account_disabled] on a 403.  When [checkpw] raises, on the hash of a
    user who is in the table, the answer is 500 with the text of the
    exception and the [login_attempt] is the only event.  No login changes
    the user table or the registry. *)
Theorem login_audit_trail env req st :
  let name := get req "username" "" in
  let password := get req "password" "" in
  let r := fst (login env req st) in
  let st' := snd (login env req st) in
  let event kind info :=
    {| timestamp := utcnow env; event_type := kind; event_user_id := Some name;
       details := info; source_ip := remote_addr req |} in
  users_db st' = users_db st /\ custom_protocols st' = custom_protocols st
  /\ ((name = "" \/ password = "") -> status r = 400 /\ st' = st)
  /\ (name <> "" -> password <> "" ->
      (exists outcome info,
         security_logs st' =
           (security_logs st ++ [event "login_attempt" []; event outcome info])%list
         /\ ((status r = 200 /\ outcome = "login_success" /\ info = [])
             \/ (status r = 401 /\ outcome = "login_failure" /\
                 info = [("reason", JStr "invalid_credentials")])
             \/ (status r = 403 /\ outcome = "login_failure" /\
                 info = [("reason", JStr "account_disabled")])))
      \/ (exists user e,
            users_db st !! name = Some user /\
            checkpw (encode_utf8 password) (password_hash user) = Raise e /\
            r = error 500 e /\
            security_logs st' = (security_logs st ++ [event "login_attempt" []])%list))
  /\ (forall user e,
        name <> "" -> password <> "" ->
        users_db st !! name = Some user ->
        checkpw (encode_utf8 password) (password_hash user) = Raise e ->
        r = error 500 e /\
        security_logs st' = (security_logs st ++ [event "login_attempt" []])%list).
Proof.
  intros name password r st' event. subst r st'. unfold login. fold name password.
  destruct (nonempty name) eqn:Hn; cbn [negb orb];
    [destruct (nonempty password) eqn:Hp; cbn [negb orb]|].
  - apply nonempty_true in Hn, Hp.
    rewrite authenticate_user_log.
    destruct (authenticate_user st name password) as [[user|]|e] eqn:Ha;
      [destruct (is_active user); cbn [negb]| |]; cbn [fst snd];
      (split; [reflexivity|]); (split; [reflexivity|]);
      (split; [intros [? | ?]; contradiction|]).
    1-3: split;
      [ intros _ _; left;
        rewrite !log_security_event_logs, <- app_assoc; cbn [app];
        eexists _, _; (split; [reflexivity|]); cbn [status ok error]; auto 6
      | intros u e' _ _ Hu Hc;
        assert (authenticate_user st name password = Raise e') as Ha'
          by (apply authenticate_user_Raise; eauto);
        congruence ].
    apply authenticate_user_Raise in Ha as (u0 & Hu0 & Hc0). split.
    + intros _ _. right. exists u0, e. auto.
    + intros u e' _ _ Hu Hc. assert (u = u0) as -> by congruence.
      assert (e' = e) as -> by congruence. auto.
  - apply nonempty_false in Hp. cbn [fst snd].
    repeat split; try reflexivity; intros; contradiction.
  - apply nonempty_false in Hn. cbn [fst snd].
    repeat split; try reflexivity; intros; contradiction.
Qed.

(** X9.  What a registration does.  With a field missing it is answered 400,
    with a username that is taken 409, and in both cases nothing changes.
    With all fields and a free username it calls [hashpw] on the password.
    When [hashpw] returns a hash, it is answered 200 and files one record
    under the username: active, with the email given and that hash, which
    [checkpw] accepts for the password given; it appends one event, a
    [login_success] with action [registration], and leaves the registry
    alone.  When [hashpw] raises, it is answered 500 with the text of the
    exception and nothing changes. *)
Theorem register_outcomes env req st :
  let name := get req "username" "" in
  let password := get req "password" "" in
  let mail := get req "email" "" in
  let r := fst (register env req st) in
  let st' := snd (register env req st) in
  ((name = "" \/ password = "" \/ mail = "") ->
   register env req st =
     (error 400 "Username, password, and email are required", st))
  /\ (name <> "" -> password <> "" -> mail <> "" -> is_Some (users_db st !! name) ->
      register env req st = (error 409 "Username already exists", st))
  /\ (forall hashed,
      name <> "" -> password <> "" -> mail <> "" -> users_db st !! name = None ->
      hashpw (encode_utf8 password) (gensalt env) = Return hashed ->
      status r = 200 /\
      (exists user,
         users_db st' !! name = Some user /\
         username user = name /\ email user = mail /\ is_active user = true /\
         password_hash user = hashed /\
         checkpw (encode_utf8 password) (password_hash user) = Return true) /\
      custom_protocols st' = custom_protocols st /\
      security_logs st' =
        (security_logs st ++
           [{| timestamp := utcnow env; event_type := "login_success";
               event_user_id := Some name;
               details := [("action", JStr "registration")];
               source_ip := remote_addr req |}])%list)
  /\ (forall e,
      name <> "" -> password <> "" -> mail <> "" -> users_db st !! name = None ->
      hashpw (encode_utf8 password) (gensalt env) = Raise e ->
      register env req st = (error 500 e, st)).
Proof.
  intros name password mail r st'. subst r st'. unfold register.
  fold name password mail. split; [|split; [|split]].
  - intros Hmissing.
    assert (negb (nonempty name) || negb (nonempty password) || negb (nonempty mail)
            = true) as ->; [|reflexivity].
    destruct Hmissing as [-> | [-> | ->]]; cbn [nonempty negb orb];
      rewrite ?orb_true_r; reflexivity.
  - intros Hn Hp Hm [user Huser].
    apply nonempty_true in Hn, Hp, Hm. rewrite Hn, Hp, Hm, Huser. reflexivity.
  - intros hashed Hn Hp Hm Hfree Hh.
    apply nonempty_true in Hn, Hp, Hm. rewrite Hn, Hp, Hm, Hfree, Hh.
    cbn [negb orb fst snd].
    split; [reflexivity|]. split; [|split; reflexivity].
    eexists. rewrite log_security_event_users. cbn [users_db].
    split; [apply lookup_insert_eq|]. cbn [username email is_active password_hash].
    repeat split. exact (checkpw_hashpw _ _ _ Hh).
  - intros e Hn Hp Hm Hfree Hh.
    apply nonempty_true in Hn, Hp, Hm. rewrite Hn, Hp, Hm, Hfree, Hh. reflexivity.
Qed.

Lemma bearer_prefixed (token : string) : bearer ("Bearer " +:+ token) = token.
Proof.
  unfold bearer, startswith.
  rewrite prefix_app. reflexivity.
Qed.

Lemma login_token env req st token :
  field "token" (body (fst (login env req st))) = Some (JStr token) ->
  token = generate_jwt_token (utcnow env) (get req "username" "") /\
  nonempty (get req "username" "") = true.
Proof.
  unfold login.
  destruct (nonempty (get req "username" "")) eqn:Hn; cbn [negb orb];
    [|discriminate].
  destruct (nonempty (get req "password" "")); cbn [negb orb]; [|discriminate].
  repeat case_match; cbn [fst body ok error jsonify field assoc String.eqb];
    try discriminate.
  intros [= <-]. auto.
Qed.

(** X10.  A token that login hands out opens the protected routes: presented
    within 24 hours of the login, behind the prefix "Bearer " or bare (when
    the token is not empty and does not itself begin with "Bearer "), it
    makes every protected handler run as the username that logged in. *)
Theorem login_token_passes_gate env req st token env' req' :
  field "token" (body (fst (login env req st))) = Some (JStr token) ->
  utcnow env <= utcnow env' < utcnow env + 24 * 3600 ->
  authorization req' = Some ("Bearer " +:+ token) \/
  (authorization req' = Some token /\ token <> "" /\
   startswith "Bearer " token = false) ->
  authenticated env' req' (get req "username" "") /\
  forall f st', require_auth f env' req' st' = f (get req "username" "") env' req' st'.
Proof.
  intros Htoken Hnow Hheader.
  destruct (login_token env req st token Htoken) as [-> Hname].
  assert (authenticated env' req' (get req "username" "")) as Hauth.
  { destruct Hheader as [Hh | (Hh & Hne & Hraw)].
    - exists ("Bearer " +:+ generate_jwt_token (utcnow env) (get req "username" "")).
      split; [exact Hh|]. split; [reflexivity|]. split; [|exact Hname].
      rewrite bearer_prefixed. apply verify_jwt_token_issued. exact Hnow.
    - exists (generate_jwt_token (utcnow env) (get req "username" "")).
      split; [exact Hh|]. split; [apply nonempty_true; exact Hne|].
      split; [|exact Hname].
      unfold bearer. rewrite Hraw. apply verify_jwt_token_issued. exact Hnow. }
  split; [exact Hauth|]. intros f st'. apply require_auth_pass. exact Hauth.
Qed.

(** X11.  A token whose user id is empty never opens a protected route: at
    any time, in its lifetime or out of it, the decorator answers 401 with
    reason [invalid_token] and does not run the handler. *)
Theorem require_auth_empty_user_id f env req st header T :
  authorization req = Some header -> header <> "" ->
  bearer header = generate_jwt_token T "" ->
  require_auth f env req st = denied "invalid_token" "Invalid token" env req st.
Proof.
  intros Hh Hne Htoken. unfold require_auth, denied.
  apply nonempty_true in Hne. rewrite Hh, Hne, Htoken. cbn [negb].
  unfold verify_jwt_token. rewrite jwt_decode_issued.
  destruct (utcnow env <? T); [reflexivity|].
  destruct (T + 24 * 3600 <=? utcnow env); reflexivity.
Qed.

(** X12.  What decrypt answers.  Empty data is a 400 and a string Fernet
    rejects is a 500 with an empty message, both without touching the state.
    A 200 carries exactly the text whose encoding Fernet authenticated under
    the process key; and no decrypt answer, of any status, has an
    [encryption_key] field. *)
Theorem decrypt_data_answers uid env req st :
  let data := get req "data" "" in
  let r := fst (decrypt_data uid env req st) in
  (data = "" -> decrypt_data uid env req st = (error 400 "Encrypted data is required", st))
  /\ (data <> "" -> fernet_decrypt ENCRYPTION_KEY (encode_utf8 data) = None ->
      decrypt_data uid env req st = (error 500 "", st))
  /\ (status r = 200 ->
      exists text,
        fernet_decrypt ENCRYPTION_KEY (encode_utf8 data) = Some (encode_utf8 text) /\
        body r = jsonify [("decrypted_data", JStr text); ("status", JStr "success")])
  /\ field "encryption_key" (body r) = None.
Proof.
  intros data r. subst r. unfold decrypt_data. fold data.
  split; [intros ->; reflexivity|].
  split; [intros Hne ->; apply nonempty_true in Hne; rewrite Hne; reflexivity|].
  destruct (nonempty data); cbn [negb]; [|split; [discriminate | reflexivity]].
  destruct (fernet_decrypt ENCRYPTION_KEY (encode_utf8 data)) as [decrypted|];
    [|split; [discriminate | reflexivity]].
  destruct (decode_utf8 decrypted) as [text|] eqn:Htext;
    [|split; [discriminate | reflexivity]].
  split; [|reflexivity]. intros _. exists text.
  rewrite (encode_decode _ _ Htext). split; reflexivity.
Qed.

(** X13.  The audit log learns nothing of a plaintext but its length: two
    encrypt requests by one user from one address at one moment, with data of
    the same length, leave the same state behind. *)
Theorem encrypt_data_logs_length_only uid env req req' st :
  remote_addr req = remote_addr req' ->
  String.length (get req "data" "") = String.length (get req' "data" "") ->
  snd (encrypt_data uid env req st) = snd (encrypt_data uid env req' st).
Proof.
  intros Haddr Hlen. unfold encrypt_data, log_security_event, len.
  rewrite Haddr, Hlen.
  assert (nonempty (get req "data" "") = nonempty (get req' "data" "")) as ->.
  { destruct (get req "data" ""), (get req' "data" ""); try reflexivity; discriminate. }
  repeat case_match; reflexivity.
Qed.

(** X14.  Create, then apply.  After a create under a non-empty name, the
    owner's apply on the id that create returned, with non-empty data,
    succeeds: it reports the record just created and a [secured_data] text
    made of the data and of that record's algorithm, key length and
    authentication method.  Anyone else's apply on that id is a 403. *)
Theorem create_then_apply uid env req st env' req' :
  get req "name" "" <> "" ->
  get req' "data" "" <> "" ->
  let created := create_custom_protocol uid env req st in
  let pid := make_protocol_id uid (get req "name" "") in
  let r := fst (apply_custom_protocol uid pid env' req' (snd created)) in
  field "protocol_id" (body (fst created)) = Some (JStr pid)
  /\ status r = 200
  /\ field "protocol_details" (body r) = Some (protocol_json (protocol_of uid env req))
  /\ field "secured_data" (body r) =
       Some (JStr ("Secured " +:+ get req' "data" "" +:+ " with "
                   +:+ get req "encryption_algorithm" "AES" +:+ ", "
                   +:+ pretty (default 256 (json_key_length req)) +:+ "-bit key, and "
                   +:+ get req "authentication_method" "OAuth 2.0"
                   +:+ " authentication."))
  /\ (forall other, other <> uid ->
        apply_custom_protocol other pid env' req' (snd created) =
        (error 403 "Access denied", snd created)).
Proof.
  intros Hname Hdata created pid r.
  assert (custom_protocols (snd created) !! pid = Some (protocol_of uid env req)) as Hp.
  { subst created pid. rewrite (create_custom_protocol_stores _ _ _ _ Hname).
    apply lookup_insert_eq. }
  split; [apply (create_custom_protocol_status uid env req st Hname)|].
  assert (r = ok [("protocol_id", JStr pid);
                  ("secured_data",
                   JStr ("Secured " +:+ get req' "data" "" +:+ " with "
                         +:+ get req "encryption_algorithm" "AES" +:+ ", "
                         +:+ pretty (default 256 (json_key_length req))
                         +:+ "-bit key, and "
                         +:+ get req "authentication_method" "OAuth 2.0"
                         +:+ " authentication."));
                  ("protocol_details", protocol_json (protocol_of uid env req));
                  ("status", JStr "success")]) as ->.
  { subst r. unfold apply_custom_protocol. rewrite Hp.
    cbn [protocol_of protocol_user_id]. rewrite String.eqb_refl. cbn [negb].
    apply nonempty_true in Hdata. rewrite Hdata. reflexivity. }
  split; [reflexivity|]. split; [reflexivity|]. split; [reflexivity|].
  intros other Hother. apply (apply_custom_protocol_forbidden _ _ _ _ _ _ Hp).
  cbn [protocol_of protocol_user_id]. congruence.
Qed.

Lemma map_chars_map_chars f g s : map_chars f (map_chars g s) = map_chars (fun c => f (g c)) s.
Proof. induction s as [|c s IH]; [reflexivity|]. cbn [map_chars]. f_equal. exact IH. Qed.

Lemma map_chars_ext f g s : (forall c, f c = g c) -> map_chars f s = map_chars g s.
Proof.
  intros Hfg. induction s as [|c s IH]; [reflexivity|]. cbn [map_chars].
  rewrite Hfg, IH. reflexivity.
Qed.

Lemma map_chars_length f s : String.length (map_chars f s) = String.length s.
Proof. induction s as [|c s IH]; [reflexivity|]. cbn. f_equal. exact IH. Qed.

Lemma append_length (a b : string) :
  String.length (a +:+ b) = (String.length a + String.length b)%nat.
Proof.
  induction a as [|c a IH]; [reflexivity|]. rewrite append_cons. cbn. f_equal. exact IH.
Qed.

Lemma lower_char_normal (c : ascii) :
  lower_char (if Ascii.eqb (lower_char c) " " then "_"%char else lower_char c) =
  lower_char (if Ascii.eqb c " " then "_"%char else c).
Proof. destruct c as [[] [] [] [] [] [] [] []]; reflexivity. Qed.

Lemma lower_char_replaced (c : ascii) :
  lower_char (if Ascii.eqb (if Ascii.eqb c " " then "_"%char else c) " "
              then "_"%char else (if Ascii.eqb c " " then "_"%char else c)) =
  lower_char (if Ascii.eqb c " " then "_"%char else c).
Proof. destruct c as [[] [] [] [] [] [] [] []]; reflexivity. Qed.

(** X15.  How names are told apart.  For one owner, two names get the same
    protocol id exactly when they agree once spaces are underscores and
    capitals are small; so a name, the name in small letters and the name
    with underscores for spaces all share one id.  The id is as long as the
    owner and the name together, plus one. *)
Theorem make_protocol_id_normalises uid name name' :
  (make_protocol_id uid name = make_protocol_id uid name' <->
   lower (replace " " "_" name) = lower (replace " " "_" name'))
  /\ make_protocol_id uid (lower name) = make_protocol_id uid name
  /\ make_protocol_id uid (replace " " "_" name) = make_protocol_id uid name
  /\ String.length (make_protocol_id uid name) =
     (String.length uid + 1 + String.length name)%nat.
Proof.
  unfold make_protocol_id. split; [|split; [|split]].
  - split; [|intros ->; reflexivity].
    intros Heq. apply (inj (String.append uid)) in Heq.
    apply (inj (String.append "_")) in Heq. exact Heq.
  - do 2 f_equal. unfold lower, replace. rewrite !map_chars_map_chars.
    apply map_chars_ext. intros c. apply lower_char_normal.
  - do 2 f_equal. unfold lower, replace. rewrite !map_chars_map_chars.
    apply map_chars_ext. intros c. apply lower_char_replaced.
  - rewrite !append_length. unfold lower, replace. rewrite !map_chars_length.
    cbn [String.length]. lia.
Qed.

(** X16.  What list-protocols shows (the order of the answer aside): exactly
    the stored records whose owner is the caller, never another user's; the
    count it reports is the length of that list; on well-formed tables no
    record is listed twice; and the state is returned as it was. *)
Theorem list_protocols_own uid env req st :
  let r := list_protocols uid env req st in
  snd r = st /\ status (fst r) = 200 /\
  exists listed,
    field "protocols" (body (fst r)) = Some (JList (protocol_json <$> listed)) /\
    field "protocol_count" (body (fst r)) = Some (JInt (Z.of_nat (length listed))) /\
    (forall p, p ∈ listed <->
               protocol_user_id p = uid /\ exists k, custom_protocols st !! k = Some p) /\
    (well_formed st -> NoDup listed).
Proof.
  intros r. subst r. unfold list_protocols. cbn [fst snd].
  split; [reflexivity|]. split; [reflexivity|].
  eexists. split; [reflexivity|]. split; [reflexivity|]. split.
  - intros p. rewrite list_elem_of_filter, list_elem_of_fmap. split.
    + intros [Hown ([k q] & -> & Hin)]. apply elem_of_map_to_list in Hin. eauto.
    + intros [Hown [k Hk]]. split; [exact Hown|].
      exists (k, p). split; [reflexivity|]. apply elem_of_map_to_list. exact Hk.
  - intros [_ Hprotocols]. apply NoDup_filter. apply NoDup_fmap_2_strong.
    + intros [k1 p1] [k2 p2] H1 H2 Heq. cbn [snd] in Heq. subst p2.
      apply elem_of_map_to_list in H1, H2.
      destruct (Hprotocols _ _ H1) as [<- _]. destruct (Hprotocols _ _ H2) as [<- _].
      reflexivity.
    + apply NoDup_map_to_list.
Qed.

Local Ltac files_events :=
  rewrite ?log_security_event_logs, <- ?app_assoc; cbn [app];
  first [ exists []; split; [symmetry; apply app_nil_r | constructor]
        | eexists; split; [reflexivity | repeat constructor] ].

Local Tactic Notation "files_cases" reference(h) :=
  unfold files_under, h; intros; repeat case_match; cbn [fst snd]; files_events.

Lemma encrypt_data_files uid : files_under (Some uid) (encrypt_data uid).
Proof. files_cases encrypt_data. Qed.

Lemma decrypt_data_files uid : files_under (Some uid) (decrypt_data uid).
Proof. files_cases decrypt_data. Qed.

Lemma create_custom_protocol_files uid : files_under (Some uid) (create_custom_protocol uid).
Proof. files_cases create_custom_protocol. Qed.

Lemma apply_custom_protocol_files uid pid :
  files_under (Some uid) (apply_custom_protocol uid pid).
Proof. files_cases apply_custom_protocol. Qed.

Lemma get_security_logs_files uid : files_under (Some uid) (get_security_logs uid).
Proof. files_cases get_security_logs. Qed.

Lemma list_protocols_files uid : files_under (Some uid) (list_protocols uid).
Proof. files_cases list_protocols. Qed.

Lemma register_login_files env req st h :
  h = register \/ h = login ->
  exists added,
    security_logs (snd (h env req st)) = (security_logs st ++ added)%list /\
    Forall (fun e => event_user_id e = Some (get req "username" "")) added.
Proof.
  intros [-> | ->]; [unfold register | unfold login];
    repeat case_match; cbn [fst snd]; files_events.
Qed.

Lemma user_logs_others uid who logs added :
  who <> Some uid ->
  Forall (fun e => event_user_id e = who) added ->
  user_logs uid (logs ++ added) = user_logs uid logs.
Proof.
  intros Hwho Hadded. unfold user_logs. rewrite filter_app.
  assert (filter (fun log => event_user_id log = Some uid) added = []) as ->;
    [|apply app_nil_r].
  induction Hadded as [|e added He _ IH]; [reflexivity|].
  rewrite filter_cons_False; [exact IH | congruence].
Qed.

(** X17.  Whose log a request writes to.  Every event a request appends is
    filed under one name: for register and login the username the request
    gives (checked or not), for a protected route the user of its token, and
    under no name when the decorator turns the request away; the health
    route appends nothing.  So what [get_security_logs] would show any other
    user is the same before and after the request. *)
Theorem events_filed_under_requester (route : Route) (env : Env) (req : Request)
    (st : State) :
  let st' := snd (dispatch route env req st) in
  let who : option string -> Prop := fun w =>
    match route with
    | Health => True
    | Register | Login => w = Some (get req "username" "")
    | _ => (forall uid, authenticated env req uid -> w = Some uid) /\
           ((forall uid, ~ authenticated env req uid) -> w = None)
    end in
  exists w added,
    who w /\
    security_logs st' = (security_logs st ++ added)%list /\
    Forall (fun e => event_user_id e = w) added /\
    (route = Health -> added = []) /\
    forall other, w <> Some other ->
      user_logs other (security_logs st') = user_logs other (security_logs st).
Proof.
  intros st' who.
  assert (exists w added,
            who w /\ security_logs st' = (security_logs st ++ added)%list /\
            Forall (fun e => event_user_id e = w) added /\
            (route = Health -> added = [])) as (w & added & Hw & Hlogs & Hadded & Hhealth).
  { assert (forall f,
              (forall uid, files_under (Some uid) (f uid)) ->
              exists w added,
                ((forall uid, authenticated env req uid -> w = Some uid) /\
                 ((forall uid, ~ authenticated env req uid) -> w = None)) /\
                security_logs (snd (require_auth f env req st))
                  = (security_logs st ++ added)%list /\
                Forall (fun e => event_user_id e = w) added) as Hgate.
    { intros f Hf.
      destruct (require_auth_cases env req st)
        as [(uid & Hauth & Hrun) | [Hno [Hden | Hden]]].
      - destruct (Hf uid env req st) as (added & Hlogs & Hadded).
        exists (Some uid), added. rewrite Hrun.
        split; [|split; assumption]. split.
        + intros uid' (h' & Hh' & _ & Hv' & _).
          destruct Hauth as (h & Hh & _ & Hv & _). congruence.
        + intros Hnone. destruct (Hnone uid Hauth).
      - exists None. rewrite Hden. unfold denied. cbn [snd].
        rewrite log_security_event_logs. eexists.
        split; [|split; [reflexivity | repeat constructor]].
        split; [intros uid Hauth; destruct (Hno uid Hauth) | reflexivity].
      - exists None. rewrite Hden. unfold denied. cbn [snd].
        rewrite log_security_event_logs. eexists.
        split; [|split; [reflexivity | repeat constructor]].
        split; [intros uid Hauth; destruct (Hno uid Hauth) | reflexivity]. }
    subst st' who. destruct route as [| | | | | |pid| |]; cbn [dispatch].
    - exists None, []. cbn [health snd].
      split; [exact I|]. split; [symmetry; apply app_nil_r|]. split; [constructor | auto].
    - destruct (register_login_files env req st register) as (added & Hl & Ha); [auto|].
      exists (Some (get req "username" "")), added.
      split; [reflexivity|]. split; [exact Hl|]. split; [exact Ha | discriminate].
    - destruct (register_login_files env req st login) as (added & Hl & Ha); [auto|].
      exists (Some (get req "username" "")), added.
      split; [reflexivity|]. split; [exact Hl|]. split; [exact Ha | discriminate].
    - destruct (Hgate encrypt_data encrypt_data_files) as (w & added & Hw & Hl & Ha).
      exists w, added. repeat split; try apply Hw; try assumption; discriminate.
    - destruct (Hgate decrypt_data decrypt_data_files) as (w & added & Hw & Hl & Ha).
      exists w, added. repeat split; try apply Hw; try assumption; discriminate.
    - destruct (Hgate create_custom_protocol create_custom_protocol_files)
        as (w & added & Hw & Hl & Ha).
      exists w, added. repeat split; try apply Hw; try assumption; discriminate.
    - destruct (Hgate (fun uid => apply_custom_protocol uid pid)
                  (fun uid => apply_custom_protocol_files uid pid))
        as (w & added & Hw & Hl & Ha).
      exists w, added. repeat split; try apply Hw; try assumption; discriminate.
    - destruct (Hgate get_security_logs get_security_logs_files)
        as (w & added & Hw & Hl & Ha).
      exists w, added. repeat split; try apply Hw; try assumption; discriminate.
    - destruct (Hgate list_protocols list_protocols_files) as (w & added & Hw & Hl & Ha).
      exists w, added. repeat split; try apply Hw; try assumption; discriminate. }
  exists w, added. repeat split; try assumption.
  intros other Hother. rewrite Hlogs. apply (user_logs_others _ w); assumption.
Qed.

End Behaviour.

(** ** The statements on concrete requests *)

Section Demo.
#[local] Existing Instances demo_python demo_bcrypt demo_jwt demo_fernet demo_startup.

Lemma alice_authenticated (now : Z) (fields : list (string * string)) :
  0 <= now < 24 * 3600 ->
  authenticated (demo_env now) (demo_request (Some alice_header) fields) "alice".
Proof.
  intros Hnow. exists alice_header.
  split; [reflexivity|]. split; [reflexivity|]. split; [|reflexivity].
  change (bearer alice_header) with (generate_jwt_token 0 "alice").
  change (utcnow (demo_env now)) with now.
  unfold verify_jwt_token. rewrite jwt_decode_issued.
  destruct (Z.ltb_spec now 0); [lia|].
  destruct (Z.leb_spec (0 + 24 * 3600) now); [lia|]. reflexivity.
Qed.

(** C1: the encrypt route, called by alice one hour after her login with the
    data "hello", answers with the key "k3y=" of the process. *)
Lemma route_encrypt_returns_key_witness :
  let r := fst (route_encrypt (demo_env 3600)
                  (demo_request (Some alice_header) [("data", "hello")]) demo_state) in
  (exists key_text,
     encode_utf8 key_text = ENCRYPTION_KEY /\
     status r = 200 /\
     field "encryption_key" (body r) = Some (JStr key_text) /\
     mentions key_text (body r) = true)
  /\ ENCRYPTION_KEY = "k3y="
  /\ r = ok [("encrypted_data", JStr "gk3y=hello");
             ("encryption_key", JStr "k3y=");
             ("status", JStr "success")].
Proof.
  split; [|split; reflexivity].
  apply (route_encrypt_returns_key "alice").
  - apply alice_authenticated. lia.
  - reflexivity.
Defined.

(** C3 on the code: a login as "alice" with a password of 73 bytes, which
    [checkpw] refuses to hash, is answered 401 by a service that has no alice
    and 500 by a service that has her. *)
Lemma login_tells_users_apart_witness :
  users_db demo_state !! "alice" = None
  /\ is_Some (users_db demo_users !! "alice")
  /\ fst (login (demo_env 5) (login_request "alice" long_password) demo_state)
     = error 401 "Invalid credentials"
  /\ fst (login (demo_env 5) (login_request "alice" long_password) demo_users)
     = error 500 demo_too_long.
Proof.
  split; [reflexivity|]. split; [eexists; reflexivity|].
  destruct (login_tells_users_apart (demo_env 5) (login_request "alice" long_password)
              demo_state demo_users
              {| username := "alice"; password_hash := "Secr3t!$na";
                 email := "a@x.com"; created_at := 0; is_active := true |}
              demo_too_long) as (Habsent & Hpresent & _);
    [discriminate | discriminate | reflexivity | reflexivity | reflexivity |].
  split; [exact Habsent | exact Hpresent].
Defined.

(** X18: alice with her password, bob who is disabled, and a wrong password
    for alice against a table that has her and a table that does not. *)
Lemma login_verifies_credentials_witness :
  (exists user, users_db demo_users !! "alice" = Some user /\ is_active user = true)
  /\ status (fst (login (demo_env 5) (login_request "bob" "hunter2") demo_users)) <> 200
  /\ fst (login (demo_env 5) (login_request "alice" "wrong") demo_users) =
     fst (login (demo_env 5) (login_request "alice" "wrong") demo_state).
Proof.
  split; [|split].
  - destruct (login_verifies_credentials (demo_env 5)
                (login_request "alice" "Secr3t!") demo_users) as (Hok & _).
    destruct (Hok eq_refl) as (user & Hu & Hact & _).
    exists user. split; assumption.
  - destruct (login_verifies_credentials (demo_env 5)
                (login_request "bob" "hunter2") demo_users) as (_ & Hno & _).
    apply Hno. right. eexists. split; [reflexivity|]. left. reflexivity.
  - destruct (login_verifies_credentials (demo_env 5)
                (login_request "alice" "wrong") demo_state) as (_ & _ & Hsame & _).
    eapply Hsame; reflexivity.
Defined.

(** C4: alice's token of time 0 one hour later, and after one day; a string
    that is no token; alice's claims under a signature that is not theirs;
    and the signature of alice's token under claims that name the admin. *)
Lemma token_lifetime_witness :
  let alice := jwt_claims {| user_id := "alice"; exp := 0 + 24 * 3600; iat := 0 |} in
  let admin := jwt_claims {| user_id := "admin"; exp := 0 + 24 * 3600; iat := 0 |} in
  verify_jwt_token (generate_jwt_token 0 "alice") 3600 = Some "alice"
  /\ verify_jwt_token (generate_jwt_token 0 "alice") (24 * 3600) = None
  /\ verify_jwt_token "not-a-token" 3600 = None
  /\ verify_jwt_token (jwt_join alice "forged") 3600 = None
  /\ verify_jwt_token (jwt_join admin (hmac_sha256 JWT_SECRET alice)) 3600 = None
  /\ collision_free JWT_SECRET.
Proof.
  intros alice admin.
  assert (collision_free JWT_SECRET) as Hfree
    by (intros m m'; apply demo_hmac_sha256_inj).
  destruct (token_lifetime 0 3600 "alice")
    as (Hvalid & _ & Hmalformed & Hforged & _ & Haltered & Hother & _).
  destruct (token_lifetime 0 (24 * 3600) "alice") as (_ & Hexpired & _).
  split; [apply Hvalid; lia|].
  split; [apply Hexpired; lia|].
  split; [apply Hmalformed; reflexivity|].
  split; [apply Hforged; discriminate|].
  split; [|exact Hfree].
  apply (Hother Hfree admin). discriminate.
Defined.

(** C4 as stated fails: at the end of its day alice's token is rejected by
    [jwt.decode] as expired, a string that is no token is rejected as invalid,
    and [verify_jwt_token] gives the same answer for both. *)
Lemma verify_jwt_token_errors_not_distinct :
  jwt_decode (generate_jwt_token 0 "alice") JWT_SECRET (24 * 3600)
    = Raise ExpiredSignatureError
  /\ jwt_decode "not-a-token" JWT_SECRET (24 * 3600) = Raise InvalidTokenError
  /\ verify_jwt_token (generate_jwt_token 0 "alice") (24 * 3600)
     = verify_jwt_token "not-a-token" (24 * 3600).
Proof. repeat split; reflexivity. Qed.

(** C7: no header, a string that is no token, and alice's token in its day. *)
Lemma require_auth_gate_witness :
  (forall g, require_auth g (demo_env 7) (demo_request None []) demo_state =
             denied "no_token" "Authentication required"
               (demo_env 7) (demo_request None []) demo_state)
  /\ (forall g, require_auth g (demo_env 7)
                  (demo_request (Some "Bearer not-a-token") []) demo_state =
                denied "invalid_token" "Invalid token" (demo_env 7)
                  (demo_request (Some "Bearer not-a-token") []) demo_state)
  /\ require_auth get_security_logs (demo_env 7)
       (demo_request (Some alice_header) []) demo_state =
     get_security_logs "alice" (demo_env 7)
       (demo_request (Some alice_header) []) demo_state.
Proof.
  split; [|split].
  - destruct (require_auth_gate get_security_logs (demo_env 7)
                (demo_request None []) demo_state) as (Hmissing & _).
    apply Hmissing. left. reflexivity.
  - destruct (require_auth_gate get_security_logs (demo_env 7)
                (demo_request (Some "Bearer not-a-token") []) demo_state)
      as (_ & Hrejected & _).
    apply (Hrejected "Bearer not-a-token" InvalidTokenError);
      [reflexivity | discriminate | reflexivity].
  - destruct (require_auth_gate get_security_logs (demo_env 7)
                (demo_request (Some alice_header) []) demo_state)
      as (_ & _ & Hpass & _).
    apply Hpass. apply alice_authenticated. lia.
Defined.

(** C7 as stated fails: alice's token, presented when its day is over, is
    rejected by [jwt.decode] as expired, and the event the decorator appends
    carries the reason [invalid_token]; the whole answer is the one a string
    that is no token gets. *)
Lemma require_auth_expired_reason :
  jwt_decode (bearer alice_header) JWT_SECRET (24 * 3600) = Raise ExpiredSignatureError
  /\ details <$> security_logs
       (snd (route_security_logs (demo_env (24 * 3600))
               (demo_request (Some alice_header) []) demo_state))
     = [[("reason", JStr "invalid_token")]]
  /\ route_security_logs (demo_env (24 * 3600))
       (demo_request (Some alice_header) []) demo_state
     = route_security_logs (demo_env (24 * 3600))
         (demo_request (Some "Bearer not-a-token") []) demo_state.
Proof. repeat split; reflexivity. Qed.

(** C5: "hello" goes through encrypt and decrypt and comes back. *)
Lemma encrypt_decrypt_roundtrip_witness :
  exists c,
    status (fst (encrypt_data "alice" (demo_env 7)
                   (demo_request None [("data", "hello")]) demo_state)) = 200 /\
    field "encrypted_data"
      (body (fst (encrypt_data "alice" (demo_env 7)
                    (demo_request None [("data", "hello")]) demo_state)))
      = Some (JStr c) /\
    (get (demo_request None [("data", "gk3y=hello")]) "data" "" = c ->
     fst (decrypt_data "bob" (demo_env 9)
            (demo_request None [("data", "gk3y=hello")]) demo_state) =
     ok [("decrypted_data", JStr "hello"); ("status", JStr "success")]).
Proof.
  destruct (encrypt_decrypt_roundtrip "alice" (demo_env 7)
              (demo_request None [("data", "hello")]) demo_state
              "bob" (demo_env 9) (demo_request None [("data", "gk3y=hello")]) demo_state)
    as (_ & Hroundtrip).
  apply Hroundtrip. discriminate.
Defined.

(** C5 as stated fails: alice, authenticated, sends the empty plaintext to the
    encrypt route and is turned away with a 400; nothing is encrypted. *)
Lemma encrypt_empty_rejected :
  route_encrypt (demo_env 3600) (demo_request (Some alice_header) [("data", "")])
    demo_state
  = (error 400 "Data to encrypt is required", demo_state).
Proof. reflexivity. Qed.

(** C2: the second create of "Vault" by alice stores its own record. *)
Lemma create_custom_protocol_replaces_witness :
  custom_protocols
    (snd (create_custom_protocol "alice" (demo_env 20) (vault_request "ROT13") vault_state))
    !! "alice_vault"
  = Some (protocol_of "alice" (demo_env 20) (vault_request "ROT13")).
Proof.
  apply (create_custom_protocol_replaces "alice" (demo_env 20)
           (vault_request "ROT13") vault_state).
  discriminate.
Defined.

(** C2 as stated fails: alice's protocol "Vault" is stored with AES; her
    second create of "Vault" is answered 200, not a conflict, and the record
    under the id is now the ROT13 one. *)
Lemma create_twice_overwrites :
  encryption_algorithm <$> custom_protocols vault_state !! "alice_vault" = Some "AES"
  /\ status (fst (route_create_protocol (demo_env 20) (vault_request "ROT13") vault_state))
     = 200
  /\ encryption_algorithm <$>
       custom_protocols
         (snd (route_create_protocol (demo_env 20) (vault_request "ROT13") vault_state))
       !! "alice_vault"
     = Some "ROT13".
Proof. repeat split; reflexivity. Qed.

(** C6: on alice's "Vault", an unknown id, a stranger, and alice herself. *)
Lemma apply_custom_protocol_ownership_witness :
  apply_custom_protocol "alice" "alice_safe" (demo_env 30)
    (demo_request None [("data", "x")]) vault_state
  = (error 404 "Protocol not found", vault_state)
  /\ apply_custom_protocol "mallory" "alice_vault" (demo_env 30)
       (demo_request None [("data", "x")]) vault_state
     = (error 403 "Access denied", vault_state)
  /\ status (fst (apply_custom_protocol "alice" "alice_vault" (demo_env 30)
                    (demo_request None [("data", "x")]) vault_state)) = 200.
Proof.
  split; [|split].
  - destruct (apply_custom_protocol_ownership "alice" "alice_safe" (demo_env 30)
                (demo_request None [("data", "x")]) vault_state) as (Hmissing & _).
    apply Hmissing. reflexivity.
  - destruct (apply_custom_protocol_ownership "mallory" "alice_vault" (demo_env 30)
                (demo_request None [("data", "x")]) vault_state) as (_ & Hforbidden & _).
    eapply Hforbidden; [reflexivity | discriminate].
  - destruct (apply_custom_protocol_ownership "alice" "alice_vault" (demo_env 30)
                (demo_request None [("data", "x")]) vault_state) as (_ & _ & Howner & _).
    eapply Howner; [reflexivity | reflexivity | discriminate].
Defined.

(** C6 as stated fails: alice, the owner, applies her own protocol to empty
    data and is turned away with a 400. *)
Lemma apply_owner_empty_data_rejected :
  protocol_user_id <$> custom_protocols vault_state !! "alice_vault" = Some "alice"
  /\ route_apply_protocol "alice_vault" (demo_env 30)
       (demo_request (Some alice_header) [("data", "")]) vault_state
     = (error 400 "Data to secure is required", vault_state).
Proof. split; reflexivity. Qed.

(** C10: the two owners of the claim, on the empty registry. *)
Lemma protocol_id_collision_witness :
  apply_custom_protocol "a" "a_b_c" (demo_env 3) (demo_request None [("data", "x")])
    (snd (create_custom_protocol "a_b" (demo_env 2) (demo_request None [("name", "c")])
       (snd (create_custom_protocol "a" (demo_env 1) (demo_request None [("name", "b c")])
          demo_state)))) = 
  (error 403 "Access denied",
    snd (create_custom_protocol "a_b" (demo_env 2) (demo_request None [("name", "c")])
       (snd (create_custom_protocol "a" (demo_env 1) (demo_request None [("name", "b c")])
          demo_state)))).
Proof.
  apply (protocol_id_collision (demo_env 1) (demo_env 2) (demo_env 3)
           (demo_request None [("name", "b c")]) (demo_request None [("name", "c")])
           (demo_request None [("data", "x")]) demo_state); reflexivity.
Defined.

(** C9: alice reads her two events, in order, and the log is as it was. *)
Lemma get_security_logs_reads_witness :
  snd (route_security_logs (demo_env 60) (demo_request (Some alice_header) []) busy_state)
    = busy_state
  /\ timestamp <$> security_logs busy_state = [10; 40; 50]
  /\ timestamp <$> user_logs "alice" (security_logs busy_state) = [10; 50].
Proof.
  split; [|split; reflexivity].
  change (route_security_logs (demo_env 60) (demo_request (Some alice_header) []) busy_state)
    with (get_security_logs "alice" (demo_env 60)
            (demo_request (Some alice_header) []) busy_state).
  apply (get_security_logs_reads "alice" (demo_env 60)
           (demo_request (Some alice_header) []) busy_state).
Defined.



(** X1: three registrations of "alice" in turn, by three people. *)
Lemma register_same_name_in_turn_witness :
  status <$> fst (serve register
                    [(demo_env 1, register_request "alice" "Secr3t!" "a@x.com");
                     (demo_env 2, register_request "alice" "other" "b@x.com");
                     (demo_env 3, register_request "alice" "third" "c@x.com")]
                    demo_state)
  = [200; 409; 409].
Proof.
  destruct (register_same_name_in_turn
              [(demo_env 1, register_request "alice" "Secr3t!" "a@x.com");
               (demo_env 2, register_request "alice" "other" "b@x.com");
               (demo_env 3, register_request "alice" "third" "c@x.com")]
              demo_state "alice") as [_ Hfirst].
  - repeat constructor.
  - reflexivity.
  - reflexivity.
  - destruct (Hfirst _ _ "Secr3t!$na" eq_refl eq_refl) as [Hstatus _].
    exact Hstatus.
Defined.

(** X2: the scenario of the spec, alice registers, then logs in. *)
Lemma register_then_login_witness :
  exists token,
    status (fst (login (demo_env 2) (login_request "alice" "Secr3t!")
                   (snd (register (demo_env 1)
                           (register_request "alice" "Secr3t!" "a@x.com") demo_state))))
      = 200 /\
    field "token"
      (body (fst (login (demo_env 2) (login_request "alice" "Secr3t!")
                    (snd (register (demo_env 1)
                            (register_request "alice" "Secr3t!" "a@x.com") demo_state)))))
      = Some (JStr token) /\
    forall T', 2 <= T' < 2 + 24 * 3600 -> verify_jwt_token token T' = Some "alice".
Proof.
  apply (register_then_login (demo_env 1) (register_request "alice" "Secr3t!" "a@x.com")
           demo_state (demo_env 2) (login_request "alice" "Secr3t!") "Secr3t!$na");
    reflexivity.
Defined.

End Demo.

(** ** More statements on concrete requests *)

Section MoreDemo.
#[local] Existing Instances demo_python demo_bcrypt demo_jwt demo_fernet demo_startup.

(** A morning of the service: alice registers, logs in, creates a protocol;
    someone without a token asks for the logs. *)
Definition morning : list (Route * Env * Request) :=
  [(Register, demo_env 1, register_request "alice" "Secr3t!" "a@x.com");
   (Login, demo_env 2, login_request "alice" "Secr3t!");
   (CreateProtocol, demo_env 3, vault_request "AES");
   (SecurityLogs, demo_env 4, demo_request None [])].

(** X3: the log of the morning begins with the log of its first two calls. *)
Lemma security_logs_append_only_witness :
  timestamp <$> security_logs (snd (run (take 2 morning) loaded)) = [1; 2; 2]
  /\ timestamp <$> security_logs (snd (run morning loaded)) = [1; 2; 2; 3; 4]
  /\ security_logs (snd (run (take 2 morning) loaded))
     `prefix_of` security_logs (snd (run morning loaded)).
Proof.
  split; [reflexivity|]. split; [reflexivity|].
  destruct (security_logs_append_only (drop 2 morning)
              (snd (run (take 2 morning) loaded))) as [Hprefix _].
  exact Hprefix.
Defined.

(** X7: after the morning, on the service started by [__main__], the admin
    logs in and is not told the account is disabled. *)
Lemma login_never_disabled_witness :
  status (fst (login (demo_env 9) (login_request "admin" "admin123")
                 (snd (run morning started)))) <> 403.
Proof.
  apply (login_never_disabled morning started).
  right. exists (demo_env 0). reflexivity.
Defined.

(** X10: the token alice got at 5 opens the gate at 100, prefixed or bare. *)
Lemma login_token_passes_gate_witness :
  authenticated (demo_env 100)
    (demo_request (Some ("Bearer " +:+ generate_jwt_token 5 "alice")) []) "alice"
  /\ authenticated (demo_env 100)
       (demo_request (Some (generate_jwt_token 5 "alice")) []) "alice".
Proof.
  split.
  - apply (login_token_passes_gate (demo_env 5) (login_request "alice" "Secr3t!")
             demo_users (generate_jwt_token 5 "alice") (demo_env 100)
             (demo_request (Some ("Bearer " +:+ generate_jwt_token 5 "alice")) []));
      [reflexivity | cbn; lia | left; reflexivity].
  - apply (login_token_passes_gate (demo_env 5) (login_request "alice" "Secr3t!")
             demo_users (generate_jwt_token 5 "alice") (demo_env 100)
             (demo_request (Some (generate_jwt_token 5 "alice")) []));
      [reflexivity | cbn; lia |].
    right. split; [reflexivity|]. split; [discriminate | reflexivity].
Defined.

(** X11: a token made for the empty user id is turned away in its lifetime. *)
Lemma require_auth_empty_user_id_witness :
  verify_jwt_token (generate_jwt_token 0 "") 7 = Some ""
  /\ route_security_logs (demo_env 7)
       (demo_request (Some ("Bearer " +:+ generate_jwt_token 0 "")) []) demo_state
     = denied "invalid_token" "Invalid token" (demo_env 7)
         (demo_request (Some ("Bearer " +:+ generate_jwt_token 0 "")) []) demo_state.
Proof.
  split; [reflexivity|].
  apply (require_auth_empty_user_id get_security_logs (demo_env 7)
           (demo_request (Some ("Bearer " +:+ generate_jwt_token 0 "")) []) demo_state
           ("Bearer " +:+ generate_jwt_token 0 "") 0);
    [reflexivity | discriminate | reflexivity].
Defined.

(** X13: "hello" and "world" leave the same trace. *)
Lemma encrypt_data_logs_length_only_witness :
  snd (encrypt_data "alice" (demo_env 7) (demo_request None [("data", "hello")]) demo_state)
  = snd (encrypt_data "alice" (demo_env 7) (demo_request None [("data", "world")])
           demo_state).
Proof.
  apply (encrypt_data_logs_length_only "alice" (demo_env 7)
           (demo_request None [("data", "hello")])
           (demo_request None [("data", "world")]) demo_state); reflexivity.
Defined.

(** X14: alice creates "Vault" and applies it; mallory may not. *)
Lemma create_then_apply_witness :
  field "secured_data"
    (body (fst (apply_custom_protocol "alice" "alice_vault" (demo_env 30)
                  (demo_request None [("data", "x")])
                  (snd (create_custom_protocol "alice" (demo_env 10)
                          (vault_request "AES") demo_state)))))
  = Some (JStr "Secured x with AES, 256-bit key, and OAuth 2.0 authentication.")
  /\ status (fst (apply_custom_protocol "mallory" "alice_vault" (demo_env 30)
                    (demo_request None [("data", "x")])
                    (snd (create_custom_protocol "alice" (demo_env 10)
                            (vault_request "AES") demo_state)))) = 403.
Proof.
  destruct (create_then_apply "alice" (demo_env 10) (vault_request "AES") demo_state
              (demo_env 30) (demo_request None [("data", "x")]))
    as (_ & _ & _ & Hsecured & Hother); [discriminate | discriminate |].
  split; [exact Hsecured|].
  assert ("mallory" <> "alice") as Hne by discriminate.
  exact (f_equal (fun out => status (fst out)) (Hother "mallory" Hne)).
Defined.

End MoreDemo.
